(** * s_driver: a character device over one fixed 512-byte buffer

    Shallow embedding of [drivers/s_driver/s_driver-part1.c] and the
    properties of its open / release / read / write / load paths.

    Conventions of the embedding:
    - the target is a 64-bit (LP64) kernel: [size_t] is an unsigned and
      [loff_t], [ssize_t] are signed 64-bit integers, all carried as [Z]
      with the conversions written out;
    - kernel pointers into [devs] are indices into the [devs] array, and a
      pointer into [data->buffer] is the byte index it designates (the
      kernel is built with wrapping pointer arithmetic, so forming
      [data->buffer + *offset] is harmless; dereferencing it is not);
    - an access that leaves [char buffer[BUFSIZE]] has no meaning in C and
      is reported as the outcome [OutOfBounds];
    - user memory is a finite map from addresses to bytes, an address that
      is not mapped faults. *)

From Stdlib Require Import ZArith List Lia Strings.Byte String.
From stdpp Require Import base option list gmap.

Open Scope Z_scope.

(** ** Integer types of the C code *)

Module CTypes.

Definition SIZE_MAX_plus_1 : Z := 2 ^ 64.
Definition LLONG_MAX_plus_1 : Z := 2 ^ 63.

Definition in_size_t (z : Z) : Prop := 0 <= z < SIZE_MAX_plus_1.
Definition in_loff_t (z : Z) : Prop := - LLONG_MAX_plus_1 <= z < LLONG_MAX_plus_1.

(** Conversion to [size_t]: reduction modulo 2^64. *)
Definition to_size_t (z : Z) : Z := z mod SIZE_MAX_plus_1.

(** Conversion to a signed 64-bit type ([loff_t], [ssize_t]): two's
    complement wrap-around, as gcc defines it. *)
Definition to_s64 (z : Z) : Z :=
  (z + LLONG_MAX_plus_1) mod SIZE_MAX_plus_1 - LLONG_MAX_plus_1.

Definition to_loff_t : Z -> Z := to_s64.
Definition to_ssize_t : Z -> Z := to_s64.

End CTypes.
Export CTypes.

(** ** User memory and the user-copy primitives *)

Module Uaccess.

(** The address space of the calling process: mapped addresses only. *)
Abbreviation umem := (gmap Z byte).

(** Bytes at [a, a + n), if every one of them is mapped. *)
Fixpoint um_load (um : umem) (a : Z) (n : nat) : option (list byte) :=
  match n with
  | O => Some []
  | S n' =>
      match um !! a, um_load um (a + 1) n' with
      | Some b, Some bs => Some (b :: bs)
      | _, _ => None
      end
  end.

Fixpoint um_store (um : umem) (a : Z) (bs : list byte) : umem :=
  match bs with
  | [] => um
  | b :: bs' => um_store (<[a := b]> um) (a + 1) bs'
  end.

(** [access_ok um a n]: the whole region [a, a + n) is mapped. *)
Definition access_ok (um : umem) (a : Z) (n : Z) : bool :=
  match um_load um a (Z.to_nat n) with Some _ => true | None => false end.

(** The object on the kernel side of a copy: [n] bytes starting at index
    [idx] of an array holding [obj]. [None] when the range is not inside
    the array. *)
Definition kslice (obj : list byte) (idx n : Z) : option (list byte) :=
  if (0 <=? idx) && (idx + n <=? Z.of_nat (length obj))
  then Some (take (Z.to_nat n) (drop (Z.to_nat idx) obj))
  else None.

Definition kstore (obj : list byte) (idx : Z) (bs : list byte) : option (list byte) :=
  if (0 <=? idx) && (idx + Z.of_nat (length bs) <=? Z.of_nat (length obj))
  then Some (take (Z.to_nat idx) obj ++ bs ++
             drop (Z.to_nat idx + length bs) obj)
  else None.

(** Modelled from the spec: [copy_to_user] of <linux/uaccess.h>, which is
    not part of this repository.  The spec describes the primitive as one
    that validates the user region before the transfer, reports a fault
    instead of trapping, and is all-or-nothing (no partial copy).  The
    result is the number of bytes that could not be copied, 0 on success,
    with the user memory after the call; [None] when the kernel-side
    source range [from, from + n) lies outside the source array. *)
Definition copy_to_user (um : umem) (to : Z) (obj : list byte) (from n : Z)
  : option (Z * umem) :=
  if access_ok um to n then
    match kslice obj from n with
    | Some bs => Some (0, um_store um to bs)
    | None => None
    end
  else Some (n, um).

(** Modelled from the spec: [copy_from_user] of <linux/uaccess.h>, with
    the same reading as [copy_to_user]: the user region is validated
    first, a failed copy transfers nothing.  The result is the number of
    bytes not copied with the destination array after the call; [None]
    when the kernel-side destination range [to, to + n) lies outside the
    destination array. *)
Definition copy_from_user (obj : list byte) (to : Z) (um : umem) (from n : Z)
  : option (Z * list byte) :=
  match um_load um from (Z.to_nat n) with
  | Some bs =>
      match kstore obj to bs with
      | Some obj' => Some (0, obj')
      | None => None
      end
  | None => Some (n, obj)
  end.

End Uaccess.
Export Uaccess.

(** ** The driver *)

Module SDriver.

Definition BUFSIZE : Z := 512.
Definition NAME : string := "s_driver".
Definition NUM_MINORS : nat := 1.
Definition FIRST_MINOR : Z := 1.

(** [MESSAGE] is the literal "Hello World\n"; [sizeof(MESSAGE)] counts
    its terminating NUL as well. *)
Definition MESSAGE : list byte :=
  [x48; x65; x6c; x6c; x6f; x20; x57; x6f; x72; x6c; x64; x0a].
Definition MESSAGE_literal : list byte := MESSAGE ++ [x00].
Definition sizeof_MESSAGE : Z := Z.of_nat (length MESSAGE_literal).

(** [EFAULT] of <linux/errno.h> (asm-generic/errno-base.h). *)
Definition EFAULT : Z := 14.

(** [MAJOR] of <linux/kdev_t.h>, with [MINORBITS] = 20. *)
Definition MINORBITS : Z := 20.
Definition MAJOR (dev : Z) : Z := Z.shiftr dev MINORBITS.

(** [struct s_driver_dev_data].  The [cdev] member belongs to the
    character-device layer and is touched by [cdev_init], [cdev_add] and
    [cdev_del] only; it is left out. *)
Record s_driver_dev_data : Type := {
  buffer : list byte;   (* char buffer[BUFSIZE] *)
  size : Z              (* size_t size *)
}.

(** What [printk] appends to the kernel log: a constant message (kept
    without its log level and trailing newline) or the formatted line of
    [init_func] with its arguments. *)
Inductive log_line : Type :=
| Line (msg : string)
| Mknod_line (name : string) (i : nat) (maj : Z).

(** The module's static storage ([devs], [major]) and the kernel log. *)
Record kernel : Type := {
  devs : list s_driver_dev_data;   (* devs[NUM_MINORS] *)
  major : Z;
  klog : list log_line
}.

Definition printk (l : log_line) (k : kernel) : kernel :=
  {| devs := devs k; major := major k; klog := klog k ++ [l] |}.

Definition set_devs (ds : list s_driver_dev_data) (k : kernel) : kernel :=
  {| devs := ds; major := major k; klog := klog k |}.

Definition set_major (m : Z) (k : kernel) : kernel :=
  {| devs := devs k; major := m; klog := klog k |}.

(** [struct inode]: [i_cdev] points at the [cdev] member of [devs[i]],
    it is kept as that index [i]. *)
Record inode : Type := { i_cdev : nat }.

(** [struct file]: [private_data] is NULL or points at a [devs] element. *)
Record file : Type := { private_data : option nat }.

(** [container_of(ptr, struct s_driver_dev_data, cdev)]: from the [cdev]
    member of [devs[i]] back to [devs[i]]. *)
Definition container_of (cdev_ptr : nat) : nat := cdev_ptr.

(** How a call ends.  [OutOfBounds idx n]: the call went on to access the
    [n] bytes at index [idx] of a [buffer] and they are not all inside it.
    [BadPointer]: the call dereferenced a pointer that designates no
    device. *)
Inductive outcome (A : Type) : Type :=
| Returns (v : A) (k : kernel)
| OutOfBounds (idx n : Z)
| BadPointer.
Arguments Returns {A} v k.
Arguments OutOfBounds {A} idx n.
Arguments BadPointer {A}.

Definition deref (k : kernel) (p : option nat) : option s_driver_dev_data :=
  match p with
  | Some i => devs k !! i
  | None => None
  end.

(** [s_open]: result and the [struct file] after the call. *)
Definition s_open (k : kernel) (ino : inode) (f : file) : outcome (Z * file) :=
  let data := container_of (i_cdev ino) in
  let f' := {| private_data := Some data |} in
  let k' := printk (Line "Device opened") k in
  Returns (0, f') k'.

Definition s_release (k : kernel) (ino : inode) (f : file) : outcome Z :=
  let k' := printk (Line "All device's closed") k in
  Returns 0 k'.

(** [s_read file ubuf count offset]: result, user memory and [*offset]
    after the call.  ([count] is the parameter the source calls [size].) *)
Definition s_read (k : kernel) (f : file) (um : umem) (ubuf : Z) (count : Z)
    (offset : Z) : outcome (Z * umem * Z) :=
  match deref k (private_data f) with
  | None => BadPointer
  | Some data =>
      let len := Z.min (to_size_t (size data - offset)) count in
      if len <=? 0 then Returns (0, um, offset) k
      else
        match copy_to_user um ubuf (buffer data) offset len with
        | None => OutOfBounds offset len
        | Some (not_copied, um') =>
            if negb (not_copied =? 0) then Returns (- EFAULT, um', offset) k
            else
              let offset' := to_loff_t (offset + len) in
              let k' := printk (Line "Device read") k in
              Returns (to_ssize_t len, um', offset') k'
        end
  end.

(** [s_write file ubuf count offset]: result and [*offset] after the
    call; the device is updated in place inside [devs]. *)
Definition s_write (k : kernel) (f : file) (um : umem) (ubuf : Z) (count : Z)
    (offset : Z) : outcome (Z * Z) :=
  match private_data f, deref k (private_data f) with
  | Some p, Some data =>
      let len := Z.min (to_size_t (size data - offset)) count in
      if len <=? 0 then Returns (0, offset) k
      else
        match copy_from_user (buffer data) offset um ubuf len with
        | None => OutOfBounds offset len
        | Some (not_copied, buffer') =>
            let data' := {| buffer := buffer'; size := size data |} in
            let k1 := set_devs (<[p := data']> (devs k)) k in
            if negb (not_copied =? 0) then Returns (- EFAULT, offset) k1
            else
              let offset' := to_loff_t (offset + len) in
              let k' := printk (Line "Device written") k1 in
              Returns (to_ssize_t len, offset') k'
        end
  | _, _ => BadPointer
  end.

(** One turn of the loop of [init_func], for minor [i]: the [printk], the
    [memcpy] of [sizeof(MESSAGE)] bytes and the assignment of [size].
    [cdev_init] and [cdev_add] act on the [cdev] member and on the
    character-device layer, which are not part of this state. *)
Definition init_minor (i : nat) (k : kernel) : outcome unit :=
  let k1 := printk (Mknod_line NAME i (major k)) k in
  match devs k1 !! i with
  | None => BadPointer
  | Some d =>
      match kstore (buffer d) 0 MESSAGE_literal with
      | None => OutOfBounds 0 sizeof_MESSAGE
      | Some buffer' =>
          let d' := {| buffer := buffer'; size := BUFSIZE |} in
          Returns tt (set_devs (<[i := d']> (devs k1)) k1)
      end
  end.

(** [for (i = 0; i < NUM_MINORS; i++)], as [n] turns starting at [i]. *)
Fixpoint init_loop (i : nat) (n : nat) (k : kernel) : outcome unit :=
  match n with
  | O => Returns tt k
  | S n' =>
      match init_minor i k with
      | Returns _ k' => init_loop (S i) n' k'
      | OutOfBounds idx m => OutOfBounds idx m
      | BadPointer => BadPointer
      end
  end.

(** [init_func].  [alloc] is what [alloc_chrdev_region] answers: its
    return value and the [dev_t] it stored. *)
Definition init_func (k : kernel) (alloc : Z * Z) : outcome Z :=
  let (rc, dev) := alloc in
  if rc <? 0 then Returns 1 (printk (Line "Registration failed") k)
  else
    let k1 := set_major (MAJOR dev) k in
    match init_loop 0 NUM_MINORS k1 with
    | Returns _ k2 =>
        Returns 0 (printk (Line "Module successfuly initialized") k2)
    | OutOfBounds idx m => OutOfBounds idx m
    | BadPointer => BadPointer
    end.

(** The module image before it is loaded: static storage is zeroed. *)
Definition static_dev : s_driver_dev_data :=
  {| buffer := replicate (Z.to_nat BUFSIZE) x00; size := 0 |}.
Definition static_image : kernel :=
  {| devs := replicate NUM_MINORS static_dev; major := 0; klog := [] |}.

(** *** States of the driver *)

(** Storage laid out as the declarations say: [NUM_MINORS] devices, each
    with a [BUFSIZE]-byte buffer (whatever the bytes are). *)
Definition dev_shape (d : s_driver_dev_data) : Prop :=
  length (buffer d) = Z.to_nat BUFSIZE.
Definition unloaded (k : kernel) : Prop :=
  length (devs k) = NUM_MINORS /\ Forall dev_shape (devs k).

(** A device as [init_func] leaves it. *)
Definition dev_ok (d : s_driver_dev_data) : Prop :=
  dev_shape d /\ size d = BUFSIZE.

(** A device on which one turn of the loop of [init_func] has run. *)
Definition greeted (d : s_driver_dev_data) : Prop :=
  dev_ok d /\ take 12 (buffer d) = MESSAGE /\ buffer d !! 12%nat = Some x00.

(** One file operation made at a file position inside the buffer or at
    its end.  A read or a write at any other position (which [pread] and
    [pwrite] can ask for) is no step of this relation: what such a call
    does past the buffer is not followed here, see [s_write_in_object]. *)
Inductive step_inside : kernel -> kernel -> Prop :=
| inside_open k ino f v k' :
    s_open k ino f = Returns v k' -> step_inside k k'
| inside_release k ino f v k' :
    s_release k ino f = Returns v k' -> step_inside k k'
| inside_read k f um ubuf count offset v k' :
    in_size_t count -> 0 <= offset <= BUFSIZE ->
    s_read k f um ubuf count offset = Returns v k' -> step_inside k k'
| inside_write k f um ubuf count offset v k' :
    in_size_t count -> 0 <= offset <= BUFSIZE ->
    s_write k f um ubuf count offset = Returns v k' -> step_inside k k'.

(** The states a successful load and file operations at positions inside
    the buffer lead to. *)
Inductive Loaded_inside : kernel -> Prop :=
| Loaded_inside_init k0 alloc k :
    unloaded k0 -> init_func k0 alloc = Returns 0 k -> Loaded_inside k
| Loaded_inside_step k k' :
    Loaded_inside k -> step_inside k k' -> Loaded_inside k'.

(** *** The device object as bytes *)

Definition byte_of_Z (z : Z) : byte :=
  match Byte.of_N (Z.to_N (z mod 256)) with
  | Some b => b
  | None => x00
  end.

Definition Z_of_byte (b : byte) : Z := Z.of_N (Byte.to_N b).

(** An unsigned integer of [n] bytes, least significant byte first. *)
Fixpoint le_encode (n : nat) (z : Z) : list byte :=
  match n with
  | O => []
  | S n' => byte_of_Z z :: le_encode n' (z / 256)
  end.

Fixpoint le_decode (bs : list byte) : Z :=
  match bs with
  | [] => 0
  | b :: bs' => Z_of_byte b + 256 * le_decode bs'
  end.

Definition sizeof_size_t : nat := 8.

(** [struct s_driver_dev_data] from its [buffer] member to its end, as it
    lies in memory on x86-64: the [BUFSIZE] bytes of [buffer], then the 8
    bytes of [size], least significant first.  ([buffer] starts behind
    [struct cdev], whose size is a multiple of 8, and [BUFSIZE] is one, so
    no padding separates the two members.) *)
Definition object_bytes (d : s_driver_dev_data) : list byte :=
  buffer d ++ le_encode sizeof_size_t (size d).

Definition object_of_bytes (bs : list byte) : s_driver_dev_data :=
  {| buffer := take (Z.to_nat BUFSIZE) bs;
     size := le_decode (take sizeof_size_t (drop (Z.to_nat BUFSIZE) bs)) |}.

(** [s_write] with the destination [data->buffer + *offset] resolved
    inside the whole object instead of inside the [buffer] member: the
    same statements, with the store made into [object_bytes].
    [OutOfBounds] is left for a store that leaves the object. *)
Definition s_write_in_object (k : kernel) (f : file) (um : umem) (ubuf : Z)
    (count : Z) (offset : Z) : outcome (Z * Z) :=
  match private_data f, deref k (private_data f) with
  | Some p, Some data =>
      let len := Z.min (to_size_t (size data - offset)) count in
      if len <=? 0 then Returns (0, offset) k
      else
        match copy_from_user (object_bytes data) offset um ubuf len with
        | None => OutOfBounds offset len
        | Some (not_copied, object') =>
            let data' := object_of_bytes object' in
            let k1 := set_devs (<[p := data']> (devs k)) k in
            if negb (not_copied =? 0) then Returns (- EFAULT, offset) k1
            else
              let offset' := to_loff_t (offset + len) in
              let k' := printk (Line "Device written") k1 in
              Returns (to_ssize_t len, offset') k'
        end
  | _, _ => BadPointer
  end.

(** A state right after a load from the zeroed image, and a handle on its
    only device; used to run the operations on concrete inputs. *)
Definition fresh_kernel : kernel :=
  match init_func static_image (0, Z.shiftl 240 MINORBITS + FIRST_MINOR) with
  | Returns _ k => k
  | _ => static_image
  end.
Definition fresh_dev : s_driver_dev_data :=
  {| buffer := MESSAGE_literal ++ replicate 499 x00; size := BUFSIZE |}.
Definition handle0 : file := {| private_data := Some 0%nat |}.

(** A process image with the 64 bytes at [4096, 4160) mapped (and holding
    the byte 'A'), nothing else. *)
Definition user_page : umem := um_store ∅ 4096 (replicate 64 x41).

(** The bytes of "test data", and a process image holding them at 8192. *)
Definition test_data : list byte :=
  [x74; x65; x73; x74; x20; x64; x61; x74; x61].
Definition user_src : umem := um_store ∅ 8192 test_data.

End SDriver.

(** ** Load and unload against the character-device layer *)

Module Lifecycle.
Import SDriver.

(** [MKDEV] of <linux/kdev_t.h>. *)
Definition MKDEV (ma mi : Z) : Z := Z.lor (Z.shiftl ma MINORBITS) mi.

(** The calls the driver makes into the character-device layer.  A cdev
    is named by the index [i] of the [devs] element it is a member of. *)
Inductive chrdev_call : Type :=
| Alloc_chrdev_region (baseminor : Z) (count : nat) (name : string)
| Cdev_init (i : nat)
| Cdev_add (i : nat) (devno : Z) (count : Z)
| Cdev_del (i : nat)
| Unregister_chrdev_region (from : Z) (count : nat).

(** One turn of the loop of [init_func] with the calls it makes: after the
    stores of [init_minor], [cdev_init(&devs[i].cdev, &fops)] and
    [cdev_add(&devs[i].cdev, MKDEV(major, i), 1)]. *)
Definition init_minor_traced (i : nat) (k : kernel)
  : outcome unit * list chrdev_call :=
  match init_minor i k with
  | Returns u k' =>
      (Returns u k',
       [Cdev_init i; Cdev_add i (MKDEV (major k') (Z.of_nat i)) 1])
  | OutOfBounds idx m => (OutOfBounds idx m, [])
  | BadPointer => (BadPointer, [])
  end.

Fixpoint init_loop_traced (i : nat) (n : nat) (k : kernel)
  : outcome unit * list chrdev_call :=
  match n with
  | O => (Returns tt k, [])
  | S n' =>
      match init_minor_traced i k with
      | (Returns _ k', cs) =>
          let (o, cs') := init_loop_traced (S i) n' k' in (o, cs ++ cs')
      | (OutOfBounds idx m, cs) => (OutOfBounds idx m, cs)
      | (BadPointer, cs) => (BadPointer, cs)
      end
  end.

(** [init_func] with the calls it makes, the first being
    [alloc_chrdev_region(&dev, FIRST_MINOR, NUM_MINORS, NAME)], whose
    answer is [alloc]. *)
Definition init_func_traced (k : kernel) (alloc : Z * Z)
  : outcome Z * list chrdev_call :=
  let (rc, dev) := alloc in
  let region := Alloc_chrdev_region FIRST_MINOR NUM_MINORS NAME in
  if rc <? 0 then
    (Returns 1 (printk (Line "Registration failed") k), [region])
  else
    let k1 := set_major (MAJOR dev) k in
    match init_loop_traced 0 NUM_MINORS k1 with
    | (Returns _ k2, cs) =>
        (Returns 0 (printk (Line "Module successfuly initialized") k2),
         region :: cs)
    | (OutOfBounds idx m, cs) => (OutOfBounds idx m, region :: cs)
    | (BadPointer, cs) => (BadPointer, region :: cs)
    end.

(** [exit_func]: the state after it and the calls it makes. *)
Definition exit_func (k : kernel) : kernel * list chrdev_call :=
  let dels := map Cdev_del (seq 0 NUM_MINORS) in
  let unreg := Unregister_chrdev_region (MKDEV (major k) FIRST_MINOR) NUM_MINORS in
  (printk (Line "Module successfuly unloaded") k, dels ++ [unreg]).

(** The device numbers of a reserved region. *)
Definition in_region (first : Z) (count : nat) (devno : Z) : Prop :=
  first <= devno < first + Z.of_nat count.

(** The bytes a transfer of [n] bytes at [idx] concerns. *)
Definition slice (obj : list byte) (idx n : Z) : list byte :=
  take (Z.to_nat n) (drop (Z.to_nat idx) obj).

(** A device with a given buffer and [size = BUFSIZE]. *)
Definition dev_with (b : list byte) : s_driver_dev_data :=
  {| buffer := b; size := BUFSIZE |}.

(** The freshly loaded state after an open, and after a write of "test
    data" at offset 0 through the handle of that open. *)
Definition opened_kernel : kernel :=
  printk (Line "Device opened") fresh_kernel.
Definition written_kernel : kernel :=
  printk (Line "Device written")
    (set_devs [dev_with (test_data ++ drop 9 (buffer fresh_dev))]
       opened_kernel).

End Lifecycle.

Import SDriver.
Import Lifecycle.

(** * Facts about the integer conversions *)

Section CTypesFacts.

Lemma to_size_t_id z : in_size_t z -> to_size_t z = z.
Proof. intros Hz. unfold to_size_t. apply Z.mod_small. exact Hz. Qed.

Lemma to_s64_id z : in_loff_t z -> to_s64 z = z.
Proof.
  unfold in_loff_t, to_s64, LLONG_MAX_plus_1, SIZE_MAX_plus_1. intros Hz.
  rewrite Z.mod_small; lia.
Qed.

(** A negative difference wraps to the top of the [size_t] range. *)
Lemma to_size_t_neg z :
  - SIZE_MAX_plus_1 <= z < 0 -> to_size_t z = z + SIZE_MAX_plus_1.
Proof.
  unfold to_size_t, SIZE_MAX_plus_1. intros Hz.
  rewrite <- (Z.mod_add z 1 (2 ^ 64)) by lia.
  rewrite Z.mod_small; lia.
Qed.

End CTypesFacts.

(** * Facts about user memory and the copy primitives *)

Section UaccessFacts.

Implicit Types (um : umem) (a : Z) (bs : list byte).

Lemma um_load_length um a n bs : um_load um a n = Some bs -> length bs = n.
Proof.
  revert a bs. induction n as [|n IH]; intros a bs; simpl.
  - intros [= <-]. reflexivity.
  - destruct (um !! a) as [b|]; [|discriminate].
    destruct (um_load um (a + 1) n) as [bs'|] eqn:E; [|discriminate].
    intros [= <-]. simpl. f_equal. eapply IH. exact E.
Qed.

(** A store leaves every address outside its range alone. *)
Lemma um_store_outside um a bs a' :
  a' < a \/ a + Z.of_nat (length bs) <= a' ->
  um_store um a bs !! a' = um !! a'.
Proof.
  revert um a. induction bs as [|b bs IH]; intros um a Hout; simpl; [done|].
  rewrite IH by (simpl in Hout; lia).
  apply lookup_insert_ne. simpl in Hout. lia.
Qed.

(** What was stored is what a load of the same region returns. *)
Lemma um_load_store um a bs :
  um_load (um_store um a bs) a (length bs) = Some bs.
Proof.
  revert um a. induction bs as [|b bs IH]; intros um a; simpl; [done|].
  rewrite um_store_outside by lia.
  rewrite lookup_insert_eq. rewrite IH. reflexivity.
Qed.

Lemma access_ok_load um a n :
  access_ok um a n = true <-> exists bs, um_load um a (Z.to_nat n) = Some bs.
Proof.
  unfold access_ok. destruct (um_load um a (Z.to_nat n)) as [bs|].
  - split; [eauto|done].
  - split; [done|]. intros [bs [=]].
Qed.

Lemma kslice_length obj idx n bs :
  0 <= n -> kslice obj idx n = Some bs -> Z.of_nat (length bs) = n.
Proof.
  unfold kslice. intros Hn.
  destruct (0 <=? idx) eqn:E1; [|discriminate].
  destruct (idx + n <=? Z.of_nat (length obj)) eqn:E2; [|discriminate].
  simpl. intros [= <-]. rewrite length_take, length_drop. lia.
Qed.

Lemma kslice_inside obj idx n :
  0 <= idx -> idx + n <= Z.of_nat (length obj) ->
  kslice obj idx n = Some (take (Z.to_nat n) (drop (Z.to_nat idx) obj)).
Proof.
  intros H1 H2. unfold kslice.
  destruct (Z.leb_spec 0 idx); [|lia].
  destruct (Z.leb_spec (idx + n) (Z.of_nat (length obj))); [|lia].
  reflexivity.
Qed.

Lemma kslice_outside obj idx n :
  idx < 0 \/ Z.of_nat (length obj) < idx + n -> kslice obj idx n = None.
Proof.
  intros H. unfold kslice.
  destruct (Z.leb_spec 0 idx); destruct (Z.leb_spec (idx + n) (Z.of_nat (length obj)));
    simpl; try reflexivity; lia.
Qed.

Lemma kstore_inside obj idx bs :
  0 <= idx -> idx + Z.of_nat (length bs) <= Z.of_nat (length obj) ->
  kstore obj idx bs =
    Some (take (Z.to_nat idx) obj ++ bs ++ drop (Z.to_nat idx + length bs) obj).
Proof.
  intros H1 H2. unfold kstore.
  destruct (Z.leb_spec 0 idx); [|lia].
  destruct (Z.leb_spec (idx + Z.of_nat (length bs)) (Z.of_nat (length obj))); [|lia].
  reflexivity.
Qed.

Lemma kstore_outside obj idx bs :
  idx < 0 \/ Z.of_nat (length obj) < idx + Z.of_nat (length bs) ->
  kstore obj idx bs = None.
Proof.
  intros H. unfold kstore.
  destruct (Z.leb_spec 0 idx);
    destruct (Z.leb_spec (idx + Z.of_nat (length bs)) (Z.of_nat (length obj)));
    simpl; try reflexivity; lia.
Qed.

(** A store into an array keeps its length. *)
Lemma kstore_length obj idx bs obj' :
  kstore obj idx bs = Some obj' -> length obj' = length obj.
Proof.
  unfold kstore.
  destruct (Z.leb_spec 0 idx); [|discriminate].
  destruct (Z.leb_spec (idx + Z.of_nat (length bs)) (Z.of_nat (length obj)));
    [|discriminate].
  simpl. intros [= <-].
  rewrite !length_app, length_take, length_drop. lia.
Qed.

(** A store changes the bytes of its range only. *)
Lemma kstore_lookup_outside obj idx bs obj' (j : nat) :
  kstore obj idx bs = Some obj' ->
  Z.of_nat j < idx \/ idx + Z.of_nat (length bs) <= Z.of_nat j ->
  obj' !! j = obj !! j.
Proof.
  unfold kstore.
  destruct (Z.leb_spec 0 idx); [|discriminate].
  destruct (Z.leb_spec (idx + Z.of_nat (length bs)) (Z.of_nat (length obj)));
    [|discriminate].
  simpl. intros [= <-] [Hj|Hj].
  - rewrite lookup_app_l by (rewrite length_take; lia).
    apply lookup_take_lt. lia.
  - rewrite lookup_app_r by (rewrite length_take; lia).
    rewrite lookup_app_r by (rewrite length_take; lia).
    rewrite lookup_drop. f_equal. rewrite length_take. lia.
Qed.

(** Inside its range a store holds the stored bytes. *)
Lemma kslice_kstore obj idx bs obj' :
  kstore obj idx bs = Some obj' ->
  kslice obj' idx (Z.of_nat (length bs)) = Some bs.
Proof.
  intros Hst. pose proof (kstore_length _ _ _ _ Hst) as Hlen. revert Hst.
  unfold kstore.
  destruct (Z.leb_spec 0 idx); [|discriminate].
  destruct (Z.leb_spec (idx + Z.of_nat (length bs)) (Z.of_nat (length obj)));
    [|discriminate].
  simpl. intros [= <-].
  rewrite kslice_inside by lia. f_equal.
  rewrite drop_app_length' by (rewrite length_take; lia).
  rewrite Nat2Z.id. apply take_app_length.
Qed.

End UaccessFacts.

(** * The read and write paths inside the buffer *)

Lemma dev_eta (d : s_driver_dev_data) :
  {| buffer := buffer d; size := size d |} = d.
Proof. destruct d; reflexivity. Qed.

Section Transfer.

Variables (k : kernel) (f : file) (i : nat) (data : s_driver_dev_data).
Hypothesis Hhandle : private_data f = Some i.
Hypothesis Hdev : devs k !! i = Some data.

Lemma set_devs_same : set_devs (<[i := data]> (devs k)) k = k.
Proof.
  unfold set_devs. rewrite list_insert_id by exact Hdev. destruct k; reflexivity.
Qed.

(** A failed copy ends both calls before anything is touched, at any
    offset. *)
Lemma s_read_fault um ubuf count offset :
  let len := Z.min (to_size_t (size data - offset)) count in
  0 < len -> access_ok um ubuf len = false ->
  s_read k f um ubuf count offset = Returns (- EFAULT, um, offset) k.
Proof.
  intros len Hlen Hbad. unfold s_read, deref. rewrite Hhandle, Hdev.
  fold len. destruct (Z.leb_spec len 0); [lia|].
  unfold copy_to_user. rewrite Hbad.
  destruct (Z.eqb_spec len 0); [lia|]. reflexivity.
Qed.

Lemma s_write_fault um ubuf count offset :
  let len := Z.min (to_size_t (size data - offset)) count in
  0 < len -> access_ok um ubuf len = false ->
  s_write k f um ubuf count offset = Returns (- EFAULT, offset) k.
Proof.
  intros len Hlen Hbad. unfold s_write, deref. rewrite Hhandle, Hdev.
  fold len. destruct (Z.leb_spec len 0); [lia|].
  unfold copy_from_user. unfold access_ok in Hbad.
  destruct (um_load um ubuf (Z.to_nat len)); [discriminate|].
  destruct (Z.eqb_spec len 0); [lia|]. simpl.
  rewrite dev_eta, set_devs_same. reflexivity.
Qed.

Hypothesis Hok : dev_ok data.

(** The length both calls compute, while the offset has not passed the
    end of the buffer. *)
Lemma len_inside count offset :
  in_size_t count -> 0 <= offset <= BUFSIZE ->
  Z.min (to_size_t (size data - offset)) count = Z.min count (BUFSIZE - offset).
Proof.
  intros Hc Ho. destruct Hok as [_ ->].
  rewrite to_size_t_id; [lia|].
  unfold in_size_t, SIZE_MAX_plus_1, BUFSIZE in *. lia.
Qed.

Lemma s_read_inside um ubuf count offset :
  in_size_t count -> 0 <= offset <= BUFSIZE ->
  let len := Z.min count (BUFSIZE - offset) in
  s_read k f um ubuf count offset =
    if len =? 0 then Returns (0, um, offset) k
    else if access_ok um ubuf len then
      Returns (len,
               um_store um ubuf
                 (take (Z.to_nat len) (drop (Z.to_nat offset) (buffer data))),
               offset + len)
              (printk (Line "Device read") k)
    else Returns (- EFAULT, um, offset) k.
Proof.
  intros Hc Ho len. unfold s_read, deref. rewrite Hhandle, Hdev.
  rewrite len_inside by assumption. fold len.
  assert (0 <= len <= BUFSIZE) as Hlen
    by (unfold len, in_size_t, BUFSIZE in *; lia).
  destruct (Z.eqb_spec len 0) as [->|Hne]; [reflexivity|].
  destruct (Z.leb_spec len 0); [lia|].
  unfold copy_to_user. destruct (access_ok um ubuf len); [|simpl].
  - destruct Hok as [Hshape _]. unfold dev_shape in Hshape.
    rewrite kslice_inside by (rewrite ?Hshape; unfold len, BUFSIZE in *; lia).
    simpl. unfold to_ssize_t, to_loff_t.
    rewrite !to_s64_id
      by (unfold in_loff_t, LLONG_MAX_plus_1, BUFSIZE in *; lia).
    reflexivity.
  - destruct (Z.eqb_spec len 0); [lia|]. reflexivity.
Qed.

Lemma s_write_inside um ubuf count offset :
  in_size_t count -> 0 <= offset <= BUFSIZE ->
  let len := Z.min count (BUFSIZE - offset) in
  s_write k f um ubuf count offset =
    if len =? 0 then Returns (0, offset) k
    else
      match um_load um ubuf (Z.to_nat len) with
      | Some bs =>
          let data' :=
            {| buffer := take (Z.to_nat offset) (buffer data) ++ bs ++
                         drop (Z.to_nat offset + length bs) (buffer data);
               size := size data |} in
          Returns (len, offset + len)
                  (printk (Line "Device written")
                          (set_devs (<[i := data']> (devs k)) k))
      | None => Returns (- EFAULT, offset) k
      end.
Proof.
  intros Hc Ho len. unfold s_write, deref. rewrite Hhandle, Hdev.
  rewrite len_inside by assumption. fold len.
  assert (0 <= len <= BUFSIZE) as Hlen
    by (unfold len, in_size_t, BUFSIZE in *; lia).
  destruct (Z.eqb_spec len 0) as [->|Hne]; [reflexivity|].
  destruct (Z.leb_spec len 0); [lia|].
  unfold copy_from_user.
  destruct (um_load um ubuf (Z.to_nat len)) as [bs|] eqn:Hload.
  - apply um_load_length in Hload.
    destruct Hok as [Hshape _]. unfold dev_shape in Hshape.
    rewrite kstore_inside
      by (rewrite ?Hshape, ?Hload; unfold len, BUFSIZE in *; lia).
    simpl. unfold to_ssize_t, to_loff_t.
    rewrite !to_s64_id
      by (unfold in_loff_t, LLONG_MAX_plus_1, BUFSIZE in *; lia).
    reflexivity.
  - destruct (Z.eqb_spec len 0); [lia|]. simpl.
    rewrite dev_eta, set_devs_same. reflexivity.
Qed.

(** Past the end of the buffer the subtraction wraps and the clamp is
    lost: the call goes for [count] bytes at [offset]. *)
Lemma s_read_beyond um ubuf count offset :
  0 < count < SIZE_MAX_plus_1 - offset ->
  BUFSIZE < offset < LLONG_MAX_plus_1 ->
  access_ok um ubuf count = true ->
  s_read k f um ubuf count offset = OutOfBounds offset count.
Proof.
  intros Hc Ho Hacc. unfold s_read, deref. rewrite Hhandle, Hdev.
  destruct Hok as [Hshape ->]. unfold dev_shape in Hshape.
  rewrite to_size_t_neg
    by (unfold SIZE_MAX_plus_1, LLONG_MAX_plus_1, BUFSIZE in *; lia).
  rewrite Z.min_r by (unfold SIZE_MAX_plus_1, BUFSIZE in *; lia).
  destruct (Z.leb_spec count 0); [lia|].
  unfold copy_to_user. rewrite Hacc.
  rewrite kslice_outside by (rewrite Hshape; unfold BUFSIZE in *; lia).
  reflexivity.
Qed.

Lemma s_write_beyond um ubuf count offset :
  0 < count < SIZE_MAX_plus_1 - offset ->
  BUFSIZE < offset < LLONG_MAX_plus_1 ->
  access_ok um ubuf count = true ->
  s_write k f um ubuf count offset = OutOfBounds offset count.
Proof.
  intros Hc Ho Hacc. unfold s_write, deref. rewrite Hhandle, Hdev.
  destruct Hok as [Hshape ->]. unfold dev_shape in Hshape.
  rewrite to_size_t_neg
    by (unfold SIZE_MAX_plus_1, LLONG_MAX_plus_1, BUFSIZE in *; lia).
  rewrite Z.min_r by (unfold SIZE_MAX_plus_1, BUFSIZE in *; lia).
  destruct (Z.leb_spec count 0); [lia|].
  unfold copy_from_user. apply access_ok_load in Hacc as [bs Hload].
  rewrite Hload. apply um_load_length in Hload.
  rewrite kstore_outside
    by (rewrite Hshape, Hload; unfold BUFSIZE in *; lia).
  reflexivity.
Qed.

End Transfer.

(** * Open and release *)

(** C9: every [s_open] and every [s_release] returns 0, and neither
    changes [devs]: the buffer and the size of every device are the same
    before and after the call (the calls add one line to the kernel log,
    and [s_open] sets [file->private_data]). *)
Theorem C9_open_release_leave_devices (k : kernel) (ino : inode) (f : file) :
  (exists f' k', s_open k ino f = Returns (0, f') k' /\ devs k' = devs k) /\
  (exists k', s_release k ino f = Returns 0 k' /\ devs k' = devs k).
Proof.
  split.
  - eexists _, _. split; reflexivity.
  - eexists. split; reflexivity.
Qed.

(** The handle [s_open] hands out designates the device of the node. *)
Lemma s_open_handle k ino f v k' :
  s_open k ino f = Returns v k' ->
  v = (0, {| private_data := Some (i_cdev ino) |}) /\
  k' = printk (Line "Device opened") k.
Proof. unfold s_open, container_of. intros [= <- <-]. split; reflexivity. Qed.

(** * End of data and faults *)

(** At [offset == size], or when no byte is requested, both calls return
    0 and touch nothing. *)
Lemma eof_at_size k f i data um ubuf count offset :
  private_data f = Some i -> devs k !! i = Some data -> dev_ok data ->
  in_size_t count -> 0 <= offset <= BUFSIZE ->
  count = 0 \/ offset = BUFSIZE ->
  s_read k f um ubuf count offset = Returns (0, um, offset) k /\
  s_write k f um ubuf count offset = Returns (0, offset) k.
Proof.
  intros Hf Hd Hok Hc Ho Hz.
  rewrite (s_read_inside k f i data Hf Hd Hok) by assumption.
  rewrite (s_write_inside k f i data Hf Hd Hok) by assumption.
  assert (Z.min count (BUFSIZE - offset) = 0) as ->
    by (unfold in_size_t in Hc; lia).
  split; reflexivity.
Qed.

(** C1, at an offset past the end: a read and a write of 1 byte at offset
    513 of the freshly loaded device do not return 0.  The length they
    compute is 1, not 0, and they go on to transfer the byte at index 513,
    which is outside the 512-byte buffer. *)
Theorem C1_offset_past_size_is_not_eof :
  s_read fresh_kernel handle0 user_page 4096 1 513 = OutOfBounds 513 1 /\
  s_write fresh_kernel handle0 user_page 4096 1 513 = OutOfBounds 513 1 /\
  Z.min (to_size_t (size fresh_dev - 513)) 1 = 1.
Proof. repeat split; vm_compute; reflexivity. Qed.

(** C2, at an offset past the end: a read and a write of 16 bytes at
    offset 1000 access the bytes at indices 1000..1015 of the 512-byte
    buffer. *)
Theorem C2_access_outside_buffer :
  s_read fresh_kernel handle0 user_page 4096 16 1000 = OutOfBounds 1000 16 /\
  s_write fresh_kernel handle0 user_page 4096 16 1000 = OutOfBounds 1000 16 /\
  Z.of_nat (length (buffer fresh_dev)) = 512.
Proof. repeat split; vm_compute; reflexivity. Qed.

(** C5: when the user region of the transfer is not accessible, [s_read]
    and [s_write] return [-EFAULT] (a negative value, no byte count), the
    offset is the one passed in, and the whole driver state, so the buffer
    and the size of every device, is what it was. *)
Theorem C5_fault_leaves_state k f i data um ubuf count offset :
  private_data f = Some i -> devs k !! i = Some data ->
  0 < Z.min (to_size_t (size data - offset)) count ->
  access_ok um ubuf (Z.min (to_size_t (size data - offset)) count) = false ->
  s_read k f um ubuf count offset = Returns (- EFAULT, um, offset) k /\
  s_write k f um ubuf count offset = Returns (- EFAULT, offset) k /\
  - EFAULT < 0.
Proof.
  intros Hf Hd Hlen Hbad. repeat split.
  - apply (s_read_fault k f i data Hf Hd); assumption.
  - apply (s_write_fault k f i data Hf Hd); assumption.
Qed.

Lemma C5_fault_leaves_state_witness :
  s_read fresh_kernel handle0 ∅ 0 100 500
    = Returns (- EFAULT, ∅, 500) fresh_kernel /\
  s_write fresh_kernel handle0 ∅ 0 100 500
    = Returns (- EFAULT, 500) fresh_kernel /\
  - EFAULT < 0.
Proof.
  apply (C5_fault_leaves_state fresh_kernel handle0 0%nat fresh_dev ∅ 0 100 500).
  - reflexivity.
  - reflexivity.
  - vm_compute. reflexivity.
  - vm_compute. reflexivity.
Defined.

(** * Transfers inside the buffer *)

(** At an offset inside the buffer (or at its end) the length
    transferred is [min count (size - offset)]; for [count > 0] at
    [offset < size] with [offset + count > size] it is exactly
    [size - offset].  A read with an accessible destination returns that
    length, advances the offset by it, stores exactly that many bytes,
    the ones at [offset] in the buffer, at [ubuf] and leaves all other
    user memory alone; a write with an accessible source returns that
    length, advances the offset by it and stores exactly that many bytes
    at [offset] in the buffer. *)
Lemma transfer_is_clamped_inside k f i data um ubuf count offset :
  private_data f = Some i -> devs k !! i = Some data -> dev_ok data ->
  in_size_t count -> 0 <= offset <= size data ->
  let len := Z.min count (size data - offset) in
  (0 < count -> offset < size data -> size data < offset + count ->
   len = size data - offset /\ 0 < len) /\
  (access_ok um ubuf len = true ->
   exists bs k',
     kslice (buffer data) offset len = Some bs /\
     Z.of_nat (length bs) = len /\
     s_read k f um ubuf count offset =
       Returns (len, um_store um ubuf bs, offset + len) k' /\
     forall a, a < ubuf \/ ubuf + len <= a ->
               um_store um ubuf bs !! a = um !! a) /\
  (forall bs, um_load um ubuf (Z.to_nat len) = Some bs ->
   exists buffer' k',
     kstore (buffer data) offset bs = Some buffer' /\
     Z.of_nat (length bs) = len /\
     s_write k f um ubuf count offset = Returns (len, offset + len) k' /\
     devs k' = <[i := {| buffer := buffer'; size := size data |}]> (devs k)).
Proof.
  intros Hf Hd Hok Hc Ho len.
  pose proof Hok as [Hshape Hsize]. unfold dev_shape in Hshape.
  rewrite Hsize in Ho.
  assert (0 <= len <= BUFSIZE) as Hlen
    by (unfold len, in_size_t in *; rewrite Hsize; lia).
  assert (len = Z.min count (BUFSIZE - offset)) as Hlen'
    by (unfold len; rewrite Hsize; reflexivity).
  split; [unfold len; lia|]. split.
  - intros Hacc.
    set (bs := take (Z.to_nat len) (drop (Z.to_nat offset) (buffer data))).
    assert (Z.of_nat (length bs) = len) as Hl
      by (unfold bs; rewrite length_take, length_drop, Hshape;
          unfold BUFSIZE in *; lia).
    assert (kslice (buffer data) offset len = Some bs) as Hsl
      by (apply kslice_inside; [lia|]; rewrite Hshape; unfold BUFSIZE in *; lia).
    assert (forall a, a < ubuf \/ ubuf + len <= a ->
                      um_store um ubuf bs !! a = um !! a) as Hout
      by (intros a Ha; apply um_store_outside; rewrite Hl; exact Ha).
    rewrite (s_read_inside k f i data Hf Hd Hok) by assumption.
    rewrite <- Hlen'. fold bs.
    destruct (Z.eqb_spec len 0) as [Hz|Hnz].
    + exists bs, k. repeat split; try assumption.
      assert (bs = []) as -> by (apply length_zero_iff_nil; lia).
      rewrite Hz, Z.add_0_r. reflexivity.
    + rewrite Hacc. eexists bs, _. repeat split; assumption.
  - intros bs Hload. pose proof (um_load_length _ _ _ _ Hload) as Hl.
    assert (kstore (buffer data) offset bs =
              Some (take (Z.to_nat offset) (buffer data) ++ bs ++
                    drop (Z.to_nat offset + length bs) (buffer data))) as Hst
      by (apply kstore_inside; [lia|]; rewrite Hshape, Hl;
          unfold BUFSIZE in *; lia).
    rewrite (s_write_inside k f i data Hf Hd Hok) by assumption.
    rewrite <- Hlen'.
    destruct (Z.eqb_spec len 0) as [Hz|Hnz].
    + eexists _, k. split; [exact Hst|]. split; [lia|].
      split; [rewrite Hz, Z.add_0_r; reflexivity|].
      assert (bs = []) as -> by (apply length_zero_iff_nil; lia).
      simpl. rewrite Nat.add_0_r, take_drop, dev_eta.
      symmetry. apply list_insert_id. exact Hd.
    + rewrite Hload. eexists _, _. split; [exact Hst|]. split; [lia|].
      split; reflexivity.
Qed.

(** C3, at an offset past the end: for a request of 8 bytes at offset 600
    of the freshly loaded device, [min count (size - offset)] is -88,
    while the length the read and the write compute is 8, and both go on
    to transfer 8 bytes at index 600 of the 512-byte buffer. *)
Theorem C3_length_past_size_is_not_min :
  Z.min 8 (size fresh_dev - 600) = -88 /\
  Z.min (to_size_t (size fresh_dev - 600)) 8 = 8 /\
  s_read fresh_kernel handle0 user_page 4096 8 600 = OutOfBounds 600 8 /\
  s_write fresh_kernel handle0 user_page 4096 8 600 = OutOfBounds 600 8.
Proof. repeat split; vm_compute; reflexivity. Qed.

(** C4: a read or a write of [count > 0] bytes at an offset inside the
    buffer whose user region is accessible returns the effective length
    [min count (size - offset)], which is positive, and leaves the offset
    advanced by exactly that length. *)
Theorem C4_success_advances_offset k f i data um ubuf count offset :
  private_data f = Some i -> devs k !! i = Some data -> dev_ok data ->
  in_size_t count -> 0 < count -> 0 <= offset < size data ->
  access_ok um ubuf (Z.min count (size data - offset)) = true ->
  let len := Z.min count (size data - offset) in
  0 < len /\
  (exists um' k',
     s_read k f um ubuf count offset = Returns (len, um', offset + len) k') /\
  (exists k',
     s_write k f um ubuf count offset = Returns (len, offset + len) k').
Proof.
  intros Hf Hd Hok Hc Hpos Ho Hacc len. fold len in Hacc.
  pose proof Hok as [_ Hsize]. rewrite Hsize in Ho.
  assert (len = Z.min count (BUFSIZE - offset)) as Hlen'
    by (unfold len; rewrite Hsize; reflexivity).
  assert (0 < len) as Hlen by lia.
  split; [exact Hlen|]. split.
  - rewrite (s_read_inside k f i data Hf Hd Hok) by (assumption || lia).
    rewrite <- Hlen'. destruct (Z.eqb_spec len 0); [lia|].
    rewrite Hacc. eauto.
  - rewrite (s_write_inside k f i data Hf Hd Hok) by (assumption || lia).
    rewrite <- Hlen'. destruct (Z.eqb_spec len 0); [lia|].
    apply access_ok_load in Hacc as [bs ->]. eauto.
Qed.

Lemma C4_success_advances_offset_witness :
  0 < Z.min 12 (size fresh_dev - 0) /\
  (exists um' k',
     s_read fresh_kernel handle0 user_page 4096 12 0 = Returns (12, um', 12) k') /\
  (exists k',
     s_write fresh_kernel handle0 user_page 4096 12 0 = Returns (12, 12) k').
Proof.
  apply (C4_success_advances_offset fresh_kernel handle0 0%nat fresh_dev
           user_page 4096 12 0).
  - reflexivity.
  - reflexivity.
  - split; reflexivity.
  - split; [discriminate|reflexivity].
  - reflexivity.
  - split; [discriminate|reflexivity].
  - vm_compute. reflexivity.
Defined.

(** * What the calls change in [devs] *)

Lemma s_read_devs k f um ubuf count offset v k' :
  s_read k f um ubuf count offset = Returns v k' -> devs k' = devs k.
Proof.
  unfold s_read.
  destruct (deref k (private_data f)) as [data|]; [|discriminate].
  destruct (_ <=? 0); [intros [= _ <-]; reflexivity|].
  destruct (copy_to_user _ _ _ _ _) as [[nc um']|]; [|discriminate].
  destruct (negb _); intros [= _ <-]; reflexivity.
Qed.

(** A write that returns has replaced the buffer of the device of its
    handle by one of the same length, and nothing else. *)
Lemma s_write_devs k f um ubuf count offset v k' :
  s_write k f um ubuf count offset = Returns v k' ->
  devs k' = devs k \/
  exists p data bs buffer',
    private_data f = Some p /\ devs k !! p = Some data /\
    Z.of_nat (length bs) = Z.min (to_size_t (size data - offset)) count /\
    kstore (buffer data) offset bs = Some buffer' /\
    devs k' = <[p := {| buffer := buffer'; size := size data |}]> (devs k).
Proof.
  unfold s_write.
  destruct (private_data f) as [p|] eqn:Hp; [|discriminate]. simpl.
  destruct (devs k !! p) as [data|] eqn:Hd; [|discriminate].
  destruct (Z.leb_spec (Z.min (to_size_t (size data - offset)) count) 0) as [|Hlen];
    [intros [= _ <-]; left; reflexivity|].
  unfold copy_from_user.
  destruct (um_load um ubuf _) as [bs|] eqn:Hload.
  - destruct (kstore (buffer data) offset bs) as [b'|] eqn:Hst; [|discriminate].
    simpl. intros [= _ <-]. right. exists p, data, bs, b'.
    apply um_load_length in Hload.
    repeat split; try assumption; try reflexivity. lia.
  - destruct (negb _); intros [= _ <-]; left; simpl;
      rewrite dev_eta; apply list_insert_id; exact Hd.
Qed.

Lemma step_devs k k' :
  step_inside k k' ->
  devs k' = devs k \/
  exists p data buffer',
    devs k !! p = Some data /\ length buffer' = length (buffer data) /\
    devs k' = <[p := {| buffer := buffer'; size := size data |}]> (devs k).
Proof.
  intros [k0 ino f v k0' H|k0 ino f v k0' H|k0 f um ubuf c o v k0' _ _ H
         |k0 f um ubuf c o v k0' _ _ H].
  - left. unfold s_open in H. injection H as _ <-. reflexivity.
  - left. unfold s_release in H. injection H as _ <-. reflexivity.
  - left. eapply s_read_devs. exact H.
  - apply s_write_devs in H as [H|(p & data & bs & b' & _ & Hd & _ & Hst & H)];
      [left; exact H|right].
    exists p, data, b'. split; [exact Hd|]. split; [|exact H].
    eapply kstore_length. exact Hst.
Qed.

Lemma step_sizes k k' :
  step_inside k k' -> size <$> devs k' = size <$> devs k.
Proof.
  intros H. apply step_devs in H as [->|(p & data & b' & Hd & _ & ->)];
    [reflexivity|].
  rewrite list_fmap_insert. simpl. apply list_insert_id.
  rewrite list_lookup_fmap, Hd. reflexivity.
Qed.

Lemma step_dev_ok k k' :
  step_inside k k' -> Forall dev_ok (devs k) -> Forall dev_ok (devs k').
Proof.
  intros H Hall. apply step_devs in H as [->|(p & data & b' & Hd & Hl & ->)];
    [exact Hall|].
  apply Forall_insert; [exact Hall|].
  pose proof (proj1 (Forall_lookup _ _) Hall p data Hd) as [Hshape Hsize].
  split; [|exact Hsize]. unfold dev_shape in *. simpl. congruence.
Qed.

(** * Module load *)

Lemma init_minor_devs i k u k' :
  init_minor i k = Returns u k' ->
  exists d b,
    devs k !! i = Some d /\
    kstore (buffer d) 0 MESSAGE_literal = Some b /\
    devs k' = <[i := {| buffer := b; size := BUFSIZE |}]> (devs k).
Proof.
  unfold init_minor. simpl.
  destruct (devs k !! i) as [d|] eqn:Hd; [|discriminate].
  destruct (kstore (buffer d) 0 MESSAGE_literal) as [b|] eqn:Hst; [|discriminate].
  intros [= _ <-]. exists d, b. repeat split; assumption || reflexivity.
Qed.

Lemma init_minor_greets d b :
  dev_shape d -> kstore (buffer d) 0 MESSAGE_literal = Some b ->
  greeted {| buffer := b; size := BUFSIZE |}.
Proof.
  intros Hshape Hst. pose proof (kstore_length _ _ _ _ Hst) as Hl.
  unfold kstore in Hst. destruct (_ && _); [|discriminate].
  injection Hst as <-.
  split; [split; [unfold dev_shape in *; simpl in *; congruence|reflexivity]|].
  split; reflexivity.
Qed.

(** The loop greets the [n] devices from [i] on and keeps the shape of the
    others. *)
Lemma init_loop_devs n : forall i k u k',
  Forall dev_shape (devs k) ->
  init_loop i n k = Returns u k' ->
  length (devs k') = length (devs k) /\
  Forall dev_shape (devs k') /\
  forall j d, devs k' !! j = Some d ->
    ((i <= j < i + n)%nat -> greeted d) /\
    ((j < i)%nat -> devs k !! j = Some d).
Proof.
  induction n as [|n IH]; intros i k u k' Hall; simpl.
  - intros [= _ <-]. split; [reflexivity|]. split; [exact Hall|].
    intros j d Hd. split; [lia|]. intros _. exact Hd.
  - destruct (init_minor i k) as [u1 k1| |] eqn:Hm; try discriminate.
    apply init_minor_devs in Hm as (d0 & b & Hd0 & Hst & Hk1).
    assert (greeted {| buffer := b; size := BUFSIZE |}) as Hg.
    { apply (init_minor_greets d0); [|exact Hst].
      exact (proj1 (Forall_lookup _ _) Hall i d0 Hd0). }
    assert (Forall dev_shape (devs k1)) as Hall1.
    { rewrite Hk1. apply Forall_insert; [exact Hall|]. apply Hg. }
    intros Hloop. destruct (IH (S i) k1 u k' Hall1 Hloop) as (Hlen & Hall' & Hj).
    split; [rewrite Hlen, Hk1; apply length_insert|].
    split; [exact Hall'|].
    intros j d Hd. destruct (Hj j d Hd) as (Hin & Hbelow).
    split.
    + intros Hrange. destruct (decide (j = i)) as [->|Hne].
      * assert (devs k1 !! i = Some d) as Hi by (apply Hbelow; lia).
        rewrite Hk1, list_lookup_insert_eq in Hi
          by (eapply lookup_lt_Some; exact Hd0).
        injection Hi as <-. exact Hg.
      * apply Hin. lia.
    + intros Hlt. assert (devs k1 !! j = Some d) as Hi by (apply Hbelow; lia).
      rewrite Hk1, list_lookup_insert_ne in Hi by lia. exact Hi.
Qed.

Lemma init_minor_returns i k :
  Forall dev_shape (devs k) -> (i < length (devs k))%nat ->
  exists k', init_minor i k = Returns tt k' /\
             length (devs k') = length (devs k) /\
             Forall dev_shape (devs k').
Proof.
  intros Hall Hi. destruct (lookup_lt_is_Some_2 _ _ Hi) as [d Hd].
  pose proof (proj1 (Forall_lookup _ _) Hall i d Hd) as Hshape.
  unfold init_minor. simpl. rewrite Hd.
  destruct (kstore (buffer d) 0 MESSAGE_literal) as [b|] eqn:Hst.
  - eexists. split; [reflexivity|]. simpl. split; [apply length_insert|].
    apply Forall_insert; [exact Hall|].
    apply (init_minor_greets d b Hshape Hst).
  - rewrite kstore_inside in Hst; [discriminate|lia|].
    unfold dev_shape in Hshape. rewrite Hshape. vm_compute. discriminate.
Qed.

Lemma init_loop_returns n : forall i k,
  Forall dev_shape (devs k) -> (i + n <= length (devs k))%nat ->
  exists k', init_loop i n k = Returns tt k'.
Proof.
  induction n as [|n IH]; intros i k Hall Hlen; simpl; [eauto|].
  destruct (init_minor_returns i k Hall) as (k1 & -> & Hl1 & Hall1); [lia|].
  apply IH; [exact Hall1|]. rewrite Hl1. lia.
Qed.

(** A load whose device-number allocation succeeds returns 0 and leaves
    every device greeted. *)
Lemma init_func_returns k0 rc dev :
  unloaded k0 -> 0 <= rc -> exists k, init_func k0 (rc, dev) = Returns 0 k.
Proof.
  intros [Hlen Hall] Hrc. unfold init_func.
  destruct (Z.ltb_spec rc 0); [lia|].
  destruct (init_loop_returns NUM_MINORS 0 (set_major (MAJOR dev) k0))
    as [k' ->]; [exact Hall|simpl; lia|]. eauto.
Qed.

Lemma init_func_greets k0 alloc k :
  unloaded k0 -> init_func k0 alloc = Returns 0 k ->
  length (devs k) = NUM_MINORS /\ Forall greeted (devs k).
Proof.
  intros [Hlen Hall]. unfold init_func. destruct alloc as [rc dev].
  destruct (rc <? 0); [intros [= ? _]; discriminate|].
  destruct (init_loop 0 NUM_MINORS (set_major (MAJOR dev) k0))
    as [u k2| |] eqn:Hloop; try discriminate.
  intros [= <-]. simpl.
  destruct (init_loop_devs _ _ (set_major (MAJOR dev) k0) _ _ Hall Hloop)
    as (Hl & _ & Hj).
  simpl in Hl. split; [congruence|].
  apply Forall_lookup. intros j d Hd. apply (Hj j d Hd).
  apply lookup_lt_Some in Hd. lia.
Qed.

Lemma Loaded_dev_ok k : Loaded_inside k -> Forall dev_ok (devs k).
Proof.
  induction 1 as [k0 alloc k Hun Hinit|k k' _ IH Hstep].
  - destruct (init_func_greets k0 alloc k Hun Hinit) as [_ Hg].
    eapply Forall_impl; [exact Hg|]. intros d Hd. apply Hd.
  - eapply step_dev_ok; eassumption.
Qed.

(** While every read and write is made at a position inside the buffer,
    [size] stays what [init_func] set it to: in every such state the
    [size] of every device is 512, the length of its buffer, and each
    such call leaves every [size] as it found it. *)
Lemma size_fixed_inside k :
  Loaded_inside k ->
  Forall (fun d => size d = BUFSIZE /\ Z.of_nat (length (buffer d)) = BUFSIZE)
         (devs k) /\
  (forall k', step_inside k k' -> size <$> devs k' = size <$> devs k).
Proof.
  intros HL. split.
  - eapply Forall_impl; [exact (Loaded_dev_ok k HL)|].
    intros d [Hshape Hsize]. unfold dev_shape in Hshape.
    split; [exact Hsize|]. rewrite Hshape. reflexivity.
  - intros k'. apply step_sizes.
Qed.

(** C8, at an offset past the end: a write of the one byte 'A' at offset
    513 of the freshly loaded device computes the length 1 and stores the
    byte at [data->buffer + 513].  In the object as it lies in memory that
    is byte 1 of [size]: the call returns 1, leaves the offset at 514, and
    [size], 512 before the call, is 16640 after it, more than the 512
    bytes of the buffer, which are as they were. *)
Theorem C8_write_past_buffer_changes_size :
  exists k',
    s_write_in_object fresh_kernel handle0 user_page 4096 1 513
      = Returns (1, 514) k' /\
    size <$> devs fresh_kernel = [512] /\
    size <$> devs k' = [16640] /\
    buffer <$> devs k' = buffer <$> devs fresh_kernel.
Proof.
  eexists. split; [vm_compute; reflexivity|].
  repeat split; vm_compute; reflexivity.
Qed.

(** * The greeting, and reading back what was written *)

(** Reading [n] bytes at offset 0 through any handle on a device whose
    buffer starts with the [n] bytes [bs]. *)
Lemma s_read_prefix k f i data um ubuf bs :
  private_data f = Some i -> devs k !! i = Some data -> dev_ok data ->
  (0 < length bs)%nat ->
  take (length bs) (buffer data) = bs ->
  access_ok um ubuf (Z.of_nat (length bs)) = true ->
  exists um' k',
    s_read k f um ubuf (Z.of_nat (length bs)) 0
      = Returns (Z.of_nat (length bs), um', Z.of_nat (length bs)) k' /\
    um_load um' ubuf (length bs) = Some bs.
Proof.
  intros Hf Hd Hok Hpos Htake Hacc.
  assert (length bs <= Z.to_nat BUFSIZE)%nat as Hle.
  { destruct Hok as [Hshape _]. unfold dev_shape in Hshape.
    rewrite <- Hshape, <- Htake at 1. rewrite length_take. lia. }
  assert (Z.min (Z.of_nat (length bs)) (BUFSIZE - 0) = Z.of_nat (length bs))
    as Hmin by (unfold BUFSIZE in *; lia).
  rewrite (s_read_inside k f i data Hf Hd Hok)
    by (unfold in_size_t, SIZE_MAX_plus_1, BUFSIZE in *; lia).
  rewrite Hmin. destruct (Z.eqb_spec (Z.of_nat (length bs)) 0); [lia|].
  rewrite Hacc. eexists _, _. split; [reflexivity|].
  change (Z.to_nat 0) with 0%nat. rewrite drop_0, Nat2Z.id, Htake.
  apply um_load_store.
Qed.

(** C6: a load whose device-number allocation succeeds returns 0; right
    after it bytes 0..11 of the buffer are "Hello World\n" and byte 12 is
    the NUL of the literal, and a read of 12 bytes at offset 0 through a
    handle just opened on a node of the driver returns 12 and stores
    "Hello World\n" at the destination. *)
Theorem C6_greeting_after_load k0 rc dev :
  unloaded k0 -> 0 <= rc ->
  exists k,
    init_func k0 (rc, dev) = Returns 0 k /\
    (forall d, d ∈ devs k ->
       take 12 (buffer d) = MESSAGE /\ buffer d !! 12%nat = Some x00) /\
    (forall ino f0 um ubuf,
       (i_cdev ino < NUM_MINORS)%nat -> access_ok um ubuf 12 = true ->
       exists f k1 um' k2,
         s_open k ino f0 = Returns (0, f) k1 /\
         s_read k1 f um ubuf 12 0 = Returns (12, um', 12) k2 /\
         um_load um' ubuf 12 = Some MESSAGE).
Proof.
  intros Hun Hrc. destruct (init_func_returns k0 rc dev Hun Hrc) as [k Hinit].
  destruct (init_func_greets k0 (rc, dev) k Hun Hinit) as [Hlen Hg].
  exists k. split; [exact Hinit|]. split.
  - intros d Hd. apply (proj1 (Forall_forall _ _) Hg d Hd).
  - intros ino f0 um ubuf Hino Hacc.
    destruct (lookup_lt_is_Some_2 (devs k) (i_cdev ino)) as [d Hd]; [lia|].
    destruct (proj1 (Forall_lookup _ _) Hg _ _ Hd) as (Hok & Htake & _).
    destruct (s_read_prefix (printk (Line "Device opened") k)
                {| private_data := Some (i_cdev ino) |} (i_cdev ino) d
                um ubuf MESSAGE) as (um' & k2 & Hr & Hl);
      [reflexivity|exact Hd|exact Hok|simpl; lia|exact Htake|exact Hacc|].
    eexists _, _, um', k2. split; [reflexivity|]. split; [exact Hr|exact Hl].
Qed.

Lemma C6_greeting_after_load_witness :
  exists k,
    init_func static_image (0, 0) = Returns 0 k /\
    (forall d, d ∈ devs k ->
       take 12 (buffer d) = MESSAGE /\ buffer d !! 12%nat = Some x00) /\
    (forall ino f0 um ubuf,
       (i_cdev ino < NUM_MINORS)%nat -> access_ok um ubuf 12 = true ->
       exists f k1 um' k2,
         s_open k ino f0 = Returns (0, f) k1 /\
         s_read k1 f um ubuf 12 0 = Returns (12, um', 12) k2 /\
         um_load um' ubuf 12 = Some MESSAGE).
Proof.
  apply (C6_greeting_after_load static_image 0 0).
  - split; [reflexivity|]. repeat constructor.
  - lia.
Defined.

(** C7: a write of a byte sequence [B], 0 < len(B) <= 512, from an
    accessible source at offset 0 returns len(B); after it a read of
    len(B) bytes at offset 0 into an accessible destination returns
    len(B) and stores exactly [B], through a handle just opened on the
    same device and through every other handle on that device. *)
Theorem C7_write_then_read_round_trip k f1 i data um1 src B :
  private_data f1 = Some i -> devs k !! i = Some data -> dev_ok data ->
  (0 < length B <= 512)%nat ->
  um_load um1 src (length B) = Some B ->
  let n := Z.of_nat (length B) in
  exists k1,
    s_write k f1 um1 src n 0 = Returns (n, n) k1 /\
    (forall ino f0 um2 dst,
       i_cdev ino = i -> access_ok um2 dst n = true ->
       exists f2 k2 um2' k3,
         s_open k1 ino f0 = Returns (0, f2) k2 /\
         s_read k2 f2 um2 dst n 0 = Returns (n, um2', n) k3 /\
         um_load um2' dst (length B) = Some B) /\
    (forall f um2 dst,
       private_data f = Some i -> access_ok um2 dst n = true ->
       exists um2' k3,
         s_read k1 f um2 dst n 0 = Returns (n, um2', n) k3 /\
         um_load um2' dst (length B) = Some B).
Proof.
  intros Hf Hd Hok HB Hload n.
  pose proof Hok as [Hshape Hsize]. unfold dev_shape in Hshape.
  assert (Z.min n (BUFSIZE - 0) = n) as Hmin by (unfold n, BUFSIZE; lia).
  rewrite (s_write_inside k f1 i data Hf Hd Hok)
    by (unfold n, in_size_t, SIZE_MAX_plus_1, BUFSIZE; lia).
  rewrite Hmin. destruct (Z.eqb_spec n 0); [unfold n in *; lia|].
  unfold n at 1. rewrite Nat2Z.id, Hload. simpl.
  set (data' := {| buffer := B ++ drop (length B) (buffer data);
                   size := size data |}).
  set (k1 := printk (Line "Device written")
               (set_devs (<[i := data']> (devs k)) k)).
  assert (devs k1 !! i = Some data') as Hd'.
  { simpl. apply list_lookup_insert_eq. eapply lookup_lt_Some. exact Hd. }
  assert (dev_ok data') as Hok'.
  { split; [|exact Hsize]. unfold dev_shape. simpl.
    rewrite length_app, length_drop, Hshape. unfold BUFSIZE. lia. }
  assert (take (length B) (buffer data') = B) as Htake
    by (simpl; apply take_app_length).
  exists k1. split; [reflexivity|]. split.
  - intros ino f0 um2 dst Hino Hacc.
    destruct (s_read_prefix (printk (Line "Device opened") k1)
                {| private_data := Some (i_cdev ino) |} i data' um2 dst B)
      as (um' & k3 & Hr & Hl);
      [simpl; congruence|exact Hd'|exact Hok'|lia|exact Htake|exact Hacc|].
    eexists _, _, um', k3. split; [reflexivity|]. split; [exact Hr|exact Hl].
  - intros f um2 dst Hpf Hacc.
    apply (s_read_prefix k1 f i data' um2 dst B);
      [exact Hpf|exact Hd'|exact Hok'|lia|exact Htake|exact Hacc].
Qed.

Lemma C7_write_then_read_round_trip_witness :
  exists k1,
    s_write fresh_kernel handle0 user_src 8192 9 0 = Returns (9, 9) k1 /\
    exists f2 k2 um2' k3,
      s_open k1 {| i_cdev := 0 |} {| private_data := None |} = Returns (0, f2) k2 /\
      s_read k2 f2 user_page 4096 9 0 = Returns (9, um2', 9) k3 /\
      um_load um2' 4096 9 = Some test_data.
Proof.
  destruct (C7_write_then_read_round_trip fresh_kernel handle0 0%nat fresh_dev
              user_src 8192 test_data) as (k1 & Hw & Hfresh & _).
  - reflexivity.
  - reflexivity.
  - split; reflexivity.
  - simpl. lia.
  - vm_compute. reflexivity.
  - exists k1. split; [exact Hw|].
    apply (Hfresh {| i_cdev := 0 |} {| private_data := None |} user_page 4096).
    + reflexivity.
    + vm_compute. reflexivity.
Defined.

(** * Frame of the transfers *)

(** C10: a write at an offset inside the buffer that returns leaves
    [devs] as it was except for the buffer of the device of the handle,
    where every byte outside [offset, offset + len), with
    [len = min count (size - offset)], is the byte that was there, and
    the [size] is the one that was there; a read that returns leaves
    [devs], so every buffer and every [size], as it was. *)
Theorem C10_transfer_frame k f i data um ubuf count offset :
  private_data f = Some i -> devs k !! i = Some data -> dev_ok data ->
  in_size_t count -> 0 <= offset < size data ->
  let len := Z.min count (size data - offset) in
  (forall r off' k',
     s_write k f um ubuf count offset = Returns (r, off') k' ->
     exists data',
       devs k' = <[i := data']> (devs k) /\
       size data' = size data /\
       forall j : nat,
         Z.of_nat j < offset \/ offset + len <= Z.of_nat j ->
         buffer data' !! j = buffer data !! j) /\
  (forall v k',
     s_read k f um ubuf count offset = Returns v k' -> devs k' = devs k).
Proof.
  intros Hf Hd Hok Hc Ho len. split.
  - intros r off' k' Hw.
    apply s_write_devs in Hw
      as [Hw|(p & data0 & bs & b' & Hp & Hd0 & Hl & Hst & Hw)].
    + exists data. split; [|split; [reflexivity|intros; reflexivity]].
      rewrite Hw. symmetry. apply list_insert_id. exact Hd.
    + rewrite Hf in Hp. injection Hp as <-.
      rewrite Hd in Hd0. injection Hd0 as <-.
      eexists. split; [exact Hw|]. split; [reflexivity|]. simpl.
      intros j Hj. apply (kstore_lookup_outside _ _ _ _ _ Hst).
      rewrite Hl, (len_inside data Hok)
        by (assumption || (destruct Hok as [_ <-]; lia)).
      destruct Hok as [_ Hsize]. fold len. unfold len in *.
      rewrite Hsize in *. exact Hj.
  - intros v k'. apply s_read_devs.
Qed.

Lemma C10_transfer_frame_witness :
  exists k' data',
    s_write fresh_kernel handle0 user_src 8192 9 0 = Returns (9, 9) k' /\
    devs k' = <[0%nat := data']> (devs fresh_kernel) /\
    size data' = size fresh_dev /\
    buffer data' !! 9%nat = buffer fresh_dev !! 9%nat.
Proof.
  destruct (C10_transfer_frame fresh_kernel handle0 0%nat fresh_dev
              user_src 8192 9 0) as [Hw _].
  - reflexivity.
  - reflexivity.
  - split; reflexivity.
  - split; [discriminate|reflexivity].
  - split; [discriminate|reflexivity].
  - assert (s_write fresh_kernel handle0 user_src 8192 9 0 =
            Returns (9, 9)
              (printk (Line "Device written")
                 (set_devs
                    [{| buffer := test_data ++ drop 9 (buffer fresh_dev);
                        size := BUFSIZE |}] fresh_kernel))) as E
      by (vm_compute; reflexivity).
    destruct (Hw _ _ _ E) as (data' & Hdevs & Hsize & Hframe).
    eexists _, data'. split; [exact E|]. split; [exact Hdevs|].
    split; [exact Hsize|]. apply Hframe. right. vm_compute. discriminate.
Defined.

(** * The calls at every offset *)

Lemma to_size_t_range z : 0 <= to_size_t z < SIZE_MAX_plus_1.
Proof. unfold to_size_t, SIZE_MAX_plus_1. apply Z.mod_pos_bound. lia. Qed.

(** The wrapped difference is 0 at [offset = BUFSIZE] only. *)
Lemma to_size_t_diff_zero offset :
  in_loff_t offset -> to_size_t (BUFSIZE - offset) = 0 -> offset = BUFSIZE.
Proof.
  unfold in_loff_t, LLONG_MAX_plus_1, BUFSIZE. intros Ho Hz.
  destruct (Z_le_gt_dec offset 512) as [Hle|Hgt].
  - rewrite to_size_t_id in Hz; [lia|]. unfold in_size_t, SIZE_MAX_plus_1. lia.
  - rewrite to_size_t_neg in Hz; unfold SIZE_MAX_plus_1 in *; lia.
Qed.

Section Cases.

Variables (k : kernel) (f : file) (i : nat) (data : s_driver_dev_data).
Hypothesis Hhandle : private_data f = Some i.
Hypothesis Hdev : devs k !! i = Some data.
Hypothesis Hok : dev_ok data.

Variables (um : umem) (ubuf count offset : Z).
Hypothesis Hcount : in_size_t count.

Let len := Z.min (to_size_t (size data - offset)) count.

Lemma len_bounds : 0 <= len <= count.
Proof.
  unfold len. pose proof (to_size_t_range (size data - offset)).
  unfold in_size_t in Hcount. lia.
Qed.

(** Inside the buffer the length is at most what is left of it. *)
Lemma len_fits :
  0 < len -> 0 <= offset -> offset + len <= BUFSIZE ->
  0 <= offset < BUFSIZE /\ len = Z.min count (BUFSIZE - offset).
Proof.
  intros Hpos H0 Hfit. pose proof len_bounds as Hb.
  assert (offset < BUFSIZE) as Hlt by lia. split; [lia|].
  unfold len. rewrite (len_inside data Hok) by (assumption || lia).
  reflexivity.
Qed.

Lemma s_read_cases :
  s_read k f um ubuf count offset =
    if len =? 0 then Returns (0, um, offset) k
    else if access_ok um ubuf len then
      if (0 <=? offset) && (offset + len <=? BUFSIZE) then
        Returns (len, um_store um ubuf (slice (buffer data) offset len),
                 offset + len)
                (printk (Line "Device read") k)
      else OutOfBounds offset len
    else Returns (- EFAULT, um, offset) k.
Proof.
  pose proof len_bounds as Hb.
  unfold s_read, deref. rewrite Hhandle, Hdev. fold len.
  destruct (Z.eqb_spec len 0) as [Hz|Hnz].
  { rewrite Hz. reflexivity. }
  destruct (Z.leb_spec len 0); [lia|].
  unfold copy_to_user. destruct (access_ok um ubuf len); [|simpl].
  - pose proof Hok as [Hshape _]. unfold dev_shape in Hshape.
    destruct (Z.leb_spec 0 offset) as [H0|H0];
      destruct (Z.leb_spec (offset + len) BUFSIZE) as [Hfit|Hfit]; simpl.
    + rewrite kslice_inside by (rewrite ?Hshape; unfold BUFSIZE in *; lia).
      simpl. unfold to_ssize_t, to_loff_t.
      rewrite !to_s64_id
        by (unfold in_loff_t, LLONG_MAX_plus_1, BUFSIZE in *; lia).
      reflexivity.
    + rewrite kslice_outside by (rewrite Hshape; unfold BUFSIZE in *; lia).
      reflexivity.
    + rewrite kslice_outside by (left; lia). reflexivity.
    + rewrite kslice_outside by (left; lia). reflexivity.
  - destruct (Z.eqb_spec len 0); [lia|]. reflexivity.
Qed.

Lemma s_write_cases :
  s_write k f um ubuf count offset =
    if len =? 0 then Returns (0, offset) k
    else
      match um_load um ubuf (Z.to_nat len) with
      | Some bs =>
          if (0 <=? offset) && (offset + len <=? BUFSIZE) then
            Returns (len, offset + len)
              (printk (Line "Device written")
                 (set_devs
                    (<[i := {| buffer :=
                                 take (Z.to_nat offset) (buffer data) ++ bs ++
                                 drop (Z.to_nat offset + length bs) (buffer data);
                               size := size data |}]> (devs k)) k))
          else OutOfBounds offset len
      | None => Returns (- EFAULT, offset) k
      end.
Proof.
  pose proof len_bounds as Hb.
  unfold s_write, deref. rewrite Hhandle, Hdev. fold len.
  destruct (Z.eqb_spec len 0) as [Hz|Hnz].
  { rewrite Hz. reflexivity. }
  destruct (Z.leb_spec len 0); [lia|].
  unfold copy_from_user.
  destruct (um_load um ubuf (Z.to_nat len)) as [bs|] eqn:Hload.
  - apply um_load_length in Hload.
    pose proof Hok as [Hshape _]. unfold dev_shape in Hshape.
    destruct (Z.leb_spec 0 offset) as [H0|H0];
      destruct (Z.leb_spec (offset + len) BUFSIZE) as [Hfit|Hfit]; simpl.
    + rewrite kstore_inside
        by (rewrite ?Hshape, ?Hload; unfold BUFSIZE in *; lia).
      simpl. unfold to_ssize_t, to_loff_t.
      rewrite !to_s64_id
        by (unfold in_loff_t, LLONG_MAX_plus_1, BUFSIZE in *; lia).
      reflexivity.
    + rewrite kstore_outside
        by (rewrite Hshape, Hload; unfold BUFSIZE in *; lia).
      reflexivity.
    + rewrite kstore_outside by (left; lia). reflexivity.
    + rewrite kstore_outside by (left; lia). reflexivity.
  - destruct (Z.eqb_spec len 0); [lia|]. simpl.
    rewrite dev_eta, (set_devs_same k i data Hdev). reflexivity.
Qed.

End Cases.

(** * More on user memory and on stores *)

Section UaccessSplit.

Implicit Types (um : umem) (a : Z) (bs : list byte).

Lemma um_load_take um a n bs (m : nat) :
  um_load um a n = Some bs -> (m <= n)%nat ->
  um_load um a m = Some (take m bs).
Proof.
  revert a n bs. induction m as [|m IH]; intros a n bs Hload Hle; [done|].
  destruct n as [|n]; [lia|]. simpl in Hload. simpl.
  destruct (um !! a) as [b|]; [|discriminate].
  destruct (um_load um (a + 1) n) as [bs'|] eqn:E; [|discriminate].
  injection Hload as <-. rewrite (IH (a + 1) n bs' E) by lia. reflexivity.
Qed.

Lemma um_load_drop um a n bs (m : nat) :
  um_load um a n = Some bs -> (m <= n)%nat ->
  um_load um (a + Z.of_nat m) (n - m) = Some (drop m bs).
Proof.
  revert a n bs. induction m as [|m IH]; intros a n bs Hload Hle.
  - rewrite Z.add_0_r, Nat.sub_0_r. exact Hload.
  - destruct n as [|n]; [lia|]. simpl in Hload.
    destruct (um !! a) as [b|]; [|discriminate].
    destruct (um_load um (a + 1) n) as [bs'|] eqn:E; [|discriminate].
    injection Hload as <-. simpl.
    replace (a + Z.of_nat (S m)) with (a + 1 + Z.of_nat m) by lia.
    apply IH; [exact E|lia].
Qed.






(** Inside its range a store holds the stored bytes. *)
Lemma kstore_lookup_inside obj idx bs obj' (j : nat) :
  kstore obj idx bs = Some obj' ->
  idx <= Z.of_nat j < idx + Z.of_nat (length bs) ->
  obj' !! j = bs !! (j - Z.to_nat idx)%nat.
Proof.
  unfold kstore.
  destruct (Z.leb_spec 0 idx); [|discriminate].
  destruct (Z.leb_spec (idx + Z.of_nat (length bs)) (Z.of_nat (length obj)));
    [|discriminate].
  simpl. intros [= <-] Hj.
  rewrite lookup_app_r by (rewrite length_take; lia).
  rewrite lookup_app_l by (rewrite length_take; lia).
  f_equal. rewrite length_take. lia.
Qed.



End UaccessSplit.

(** * Successful transfers, in one form for every length *)

Section Success.

Variables (k : kernel) (f : file) (i : nat) (data : s_driver_dev_data).
Hypothesis Hhandle : private_data f = Some i.
Hypothesis Hdev : devs k !! i = Some data.
Hypothesis Hok : dev_ok data.

Lemma dev_with_buffer : dev_with (buffer data) = data.
Proof.
  unfold dev_with. destruct Hok as [_ <-]. apply dev_eta.
Qed.

Lemma s_read_ok um ubuf count offset :
  in_size_t count -> 0 <= offset <= BUFSIZE ->
  access_ok um ubuf (Z.min count (BUFSIZE - offset)) = true ->
  exists k',
    s_read k f um ubuf count offset =
      Returns (Z.min count (BUFSIZE - offset),
               um_store um ubuf
                 (slice (buffer data) offset (Z.min count (BUFSIZE - offset))),
               offset + Z.min count (BUFSIZE - offset)) k' /\
    devs k' = devs k.
Proof.
  intros Hc Ho Hacc.
  rewrite (s_read_inside k f i data Hhandle Hdev Hok) by assumption.
  destruct (Z.eqb_spec (Z.min count (BUFSIZE - offset)) 0) as [Hz|Hnz].
  - exists k. split; [|reflexivity]. rewrite Hz, Z.add_0_r. reflexivity.
  - rewrite Hacc. eexists. split; reflexivity.
Qed.

Lemma s_write_ok um ubuf count offset bs :
  in_size_t count -> 0 <= offset <= BUFSIZE ->
  um_load um ubuf (Z.to_nat (Z.min count (BUFSIZE - offset))) = Some bs ->
  exists k',
    s_write k f um ubuf count offset =
      Returns (Z.min count (BUFSIZE - offset),
               offset + Z.min count (BUFSIZE - offset)) k' /\
    devs k' =
      <[i := dev_with (take (Z.to_nat offset) (buffer data) ++ bs ++
                       drop (Z.to_nat offset + length bs) (buffer data))]>
        (devs k).
Proof.
  intros Hc Ho Hload.
  rewrite (s_write_inside k f i data Hhandle Hdev Hok) by assumption.
  destruct (Z.eqb_spec (Z.min count (BUFSIZE - offset)) 0) as [Hz|Hnz].
  - exists k. split; [rewrite Hz, Z.add_0_r; reflexivity|].
    rewrite Hz in Hload. injection Hload as <-. simpl.
    rewrite Nat.add_0_r, take_drop, dev_with_buffer.
    symmetry. apply list_insert_id. exact Hdev.
  - rewrite Hload. eexists. split; [reflexivity|]. simpl.
    unfold dev_with. destruct Hok as [_ ->]. reflexivity.
Qed.

End Success.

(** * What a call inside the buffer returns *)

(** A read or a write at an offset inside the buffer or at its end always
    returns.  Either it has failed with [-EFAULT] and changed nothing, or
    it has returned a count [r] with [0 <= r <= count] that is at most the
    [BUFSIZE - offset] bytes left, and advanced the offset by exactly [r],
    so that the offset is again inside the buffer or at its end. *)
Theorem returned_count_is_bounded k f i data um ubuf count offset :
  private_data f = Some i -> devs k !! i = Some data -> dev_ok data ->
  in_size_t count -> 0 <= offset <= BUFSIZE ->
  (exists r um' off' k',
     s_read k f um ubuf count offset = Returns (r, um', off') k' /\
     ((r = - EFAULT /\ um' = um /\ off' = offset /\ k' = k) \/
      (0 <= r <= count /\ r <= BUFSIZE - offset /\
       off' = offset + r /\ 0 <= off' <= BUFSIZE))) /\
  (exists r off' k',
     s_write k f um ubuf count offset = Returns (r, off') k' /\
     ((r = - EFAULT /\ off' = offset /\ k' = k) \/
      (0 <= r <= count /\ r <= BUFSIZE - offset /\
       off' = offset + r /\ 0 <= off' <= BUFSIZE))).
Proof.
  intros Hf Hd Hok Hc Ho.
  assert (0 <= Z.min count (BUFSIZE - offset) <= count /\
          Z.min count (BUFSIZE - offset) <= BUFSIZE - offset) as [Hb Hb']
    by (unfold in_size_t in Hc; lia).
  split.
  - rewrite (s_read_inside k f i data Hf Hd Hok) by assumption.
    destruct (Z.eqb_spec (Z.min count (BUFSIZE - offset)) 0) as [Hz|Hnz].
    { eexists 0, _, _, _. split; [reflexivity|]. right. lia. }
    destruct (access_ok um ubuf _).
    + eexists _, _, _, _. split; [reflexivity|]. right. lia.
    + eexists _, _, _, _. split; [reflexivity|]. left. repeat split.
  - rewrite (s_write_inside k f i data Hf Hd Hok) by assumption.
    destruct (Z.eqb_spec (Z.min count (BUFSIZE - offset)) 0) as [Hz|Hnz].
    { eexists 0, _, _. split; [reflexivity|]. right. lia. }
    destruct (um_load um ubuf _).
    + eexists _, _, _. split; [reflexivity|]. right. lia.
    + eexists _, _, _. split; [reflexivity|]. left. repeat split.
Qed.

Lemma returned_count_is_bounded_witness :
  exists r um' off' k',
    s_read fresh_kernel handle0 user_page 4096 100 500 = Returns (r, um', off') k' /\
    ((r = - EFAULT /\ um' = user_page /\ off' = 500 /\ k' = fresh_kernel) \/
     (0 <= r <= 100 /\ r <= BUFSIZE - 500 /\
      off' = 500 + r /\ 0 <= off' <= BUFSIZE)).
Proof.
  destruct (returned_count_is_bounded fresh_kernel handle0 0%nat fresh_dev
              user_page 4096 100 500) as [Hread _].
  - reflexivity.
  - reflexivity.
  - split; reflexivity.
  - split; [discriminate|reflexivity].
  - split; discriminate.
  - exact Hread.
Defined.

(** A read or a write runs out of the buffer exactly when the offset is
    outside [0, BUFSIZE], at least one byte is requested and the user
    region of the computed length is accessible; it then goes for [len]
    bytes at [offset], where [len] is [min count (BUFSIZE - offset)] below
    the buffer and [min count (2^64 + BUFSIZE - offset)] past its end.  In
    every other case the call returns. *)
Theorem leaves_buffer_exactly_when k f i data um ubuf count offset :
  private_data f = Some i -> devs k !! i = Some data -> dev_ok data ->
  in_size_t count -> in_loff_t offset ->
  let len := Z.min (to_size_t (size data - offset)) count in
  let outside :=
    (offset < 0 \/ BUFSIZE < offset) /\ 0 < count /\
    access_ok um ubuf len = true in
  (outside ->
   s_read k f um ubuf count offset = OutOfBounds offset len /\
   s_write k f um ubuf count offset = OutOfBounds offset len /\
   0 < len /\
   (offset < 0 -> len = Z.min count (BUFSIZE - offset)) /\
   (BUFSIZE < offset ->
    len = Z.min count (SIZE_MAX_plus_1 + BUFSIZE - offset))) /\
  (~ outside ->
   (exists v k', s_read k f um ubuf count offset = Returns v k') /\
   (exists v k', s_write k f um ubuf count offset = Returns v k')).
Proof.
  intros Hf Hd Hok Hc Ho len outside.
  pose proof (len_bounds data count offset Hc) as Hb. simpl in Hb. fold len in Hb.
  pose proof Hok as [_ Hsize].
  assert (offset < 0 -> len = Z.min count (BUFSIZE - offset)) as Hneg.
  { intros Hlt. unfold len. rewrite Hsize, to_size_t_id; [lia|].
    unfold in_size_t, in_loff_t, SIZE_MAX_plus_1, LLONG_MAX_plus_1, BUFSIZE in *.
    lia. }
  assert (BUFSIZE < offset ->
          len = Z.min count (SIZE_MAX_plus_1 + BUFSIZE - offset)) as Hpast.
  { intros Hgt. unfold len. rewrite Hsize, to_size_t_neg; [lia|].
    unfold in_loff_t, SIZE_MAX_plus_1, LLONG_MAX_plus_1, BUFSIZE in *. lia. }
  rewrite (s_read_cases k f i data Hf Hd Hok um ubuf count offset Hc).
  rewrite (s_write_cases k f i data Hf Hd Hok um ubuf count offset Hc).
  simpl. fold len. split.
  - intros (Hout & Hpos & Hacc).
    assert (0 < len) as Hlen.
    { unfold in_size_t, in_loff_t, SIZE_MAX_plus_1, LLONG_MAX_plus_1, BUFSIZE in *.
      destruct Hout as [Hlt|Hgt]; [rewrite (Hneg Hlt)|rewrite (Hpast Hgt)]; lia. }
    destruct (Z.eqb_spec len 0); [lia|]. rewrite Hacc.
    apply access_ok_load in Hacc as [bs ->].
    assert ((0 <=? offset) && (offset + len <=? BUFSIZE) = false) as ->.
    { destruct (Z.leb_spec 0 offset); destruct (Z.leb_spec (offset + len) BUFSIZE);
        simpl; try reflexivity; lia. }
    repeat split; assumption.
  - intros Hnot.
    destruct (Z.eqb_spec len 0) as [Hz|Hnz]; [split; eauto|].
    destruct (access_ok um ubuf len) eqn:Hacc.
    + assert (0 <= offset <= BUFSIZE) as Hin.
      { destruct (Z_lt_ge_dec offset 0); destruct (Z_lt_ge_dec BUFSIZE offset);
          try lia; exfalso; apply Hnot; unfold outside;
          (split; [lia|split; [lia|reflexivity]]). }
      assert (offset + len <= BUFSIZE) as Hfit.
      { unfold len. rewrite (len_inside data Hok) by assumption. lia. }
      apply access_ok_load in Hacc as [bs ->].
      destruct (Z.leb_spec 0 offset); [|lia].
      destruct (Z.leb_spec (offset + len) BUFSIZE); [|lia].
      simpl. split; eauto.
    + unfold access_ok in Hacc.
      destruct (um_load um ubuf (Z.to_nat len)); [discriminate|]. split; eauto.
Qed.

Lemma leaves_buffer_exactly_when_witness :
  s_read fresh_kernel handle0 user_page 4096 32 (-8) = OutOfBounds (-8) 32 /\
  s_write fresh_kernel handle0 user_page 4096 32 (-8) = OutOfBounds (-8) 32 /\
  (exists v k', s_read fresh_kernel handle0 user_page 4096 32 490 = Returns v k').
Proof.
  destruct (leaves_buffer_exactly_when fresh_kernel handle0 0%nat fresh_dev
              user_page 4096 32 (-8)) as [Hout _].
  - reflexivity.
  - reflexivity.
  - split; reflexivity.
  - split; [discriminate|reflexivity].
  - split; [discriminate|reflexivity].
  - destruct (leaves_buffer_exactly_when fresh_kernel handle0 0%nat fresh_dev
                user_page 4096 32 490) as [_ Hin].
    + reflexivity.
    + reflexivity.
    + split; reflexivity.
    + split; [discriminate|reflexivity].
    + split; [discriminate|reflexivity].
    + destruct Hout as (Hr & Hw & _).
      { split; [left; reflexivity|]. split; [reflexivity|].
        vm_compute. reflexivity. }
      split; [exact Hr|]. split; [exact Hw|].
      apply Hin. intros ([Hlt|Hgt] & _); [discriminate Hlt|discriminate Hgt].
Defined.

(** * Reading back and composing transfers *)

(** What a write of the bytes [B] at an offset inside the buffer stores is
    what a read at that offset returns afterwards, through any handle on
    the device: both are clamped to the same length
    [min len(B) (BUFSIZE - offset)], and the read delivers the first that
    many bytes of [B]. *)
Theorem write_then_read_at_offset k f1 i data um1 src B offset :
  private_data f1 = Some i -> devs k !! i = Some data -> dev_ok data ->
  0 <= offset < BUFSIZE -> (0 < length B)%nat ->
  in_size_t (Z.of_nat (length B)) ->
  um_load um1 src (length B) = Some B ->
  let n := Z.of_nat (length B) in
  let len := Z.min n (BUFSIZE - offset) in
  exists k1,
    s_write k f1 um1 src n offset = Returns (len, offset + len) k1 /\
    forall f um2 dst,
      private_data f = Some i -> access_ok um2 dst len = true ->
      exists um2' k2,
        s_read k1 f um2 dst n offset = Returns (len, um2', offset + len) k2 /\
        um_load um2' dst (Z.to_nat len) = Some (take (Z.to_nat len) B).
Proof.
  intros Hf Hd Hok Ho HB Hn Hload n len.
  pose proof Hok as [Hshape Hsize]. unfold dev_shape in Hshape.
  assert (0 < len <= n) as Hlen by (unfold len, n; lia).
  assert (um_load um1 src (Z.to_nat len) = Some (take (Z.to_nat len) B)) as Hl
    by (apply (um_load_take _ _ _ _ _ Hload); lia).
  destruct (s_write_ok k f1 i data Hf Hd Hok um1 src n offset _ Hn
              ltac:(lia) Hl) as (k1 & Hw & Hdevs).
  exists k1. split; [exact Hw|].
  intros f um2 dst Hpf Hacc.
  set (bs := take (Z.to_nat len) B) in *.
  assert (Z.of_nat (length bs) = len) as Hbs
    by (unfold bs; rewrite length_take; lia).
  set (b' := take (Z.to_nat offset) (buffer data) ++ bs ++
             drop (Z.to_nat offset + length bs) (buffer data)) in *.
  assert (kstore (buffer data) offset bs = Some b') as Hst
    by (apply kstore_inside; [lia|]; rewrite Hshape, Hbs;
        unfold len, BUFSIZE in *; lia).
  assert (devs k1 !! i = Some (dev_with b')) as Hd1.
  { rewrite Hdevs. apply list_lookup_insert_eq. eapply lookup_lt_Some. exact Hd. }
  assert (dev_ok (dev_with b')) as Hok1.
  { split; [|reflexivity]. unfold dev_shape. simpl.
    rewrite (kstore_length _ _ _ _ Hst). exact Hshape. }
  destruct (s_read_ok k1 f i (dev_with b') Hpf Hd1 Hok1 um2 dst n offset Hn
              ltac:(lia) Hacc) as (k2 & Hr & _).
  eexists _, k2. split; [exact Hr|]. simpl. fold len.
  assert (slice b' offset len = bs) as ->.
  { pose proof (kslice_kstore _ _ _ _ Hst) as Hsl.
    rewrite Hbs, kslice_inside in Hsl
      by (rewrite ?(kstore_length _ _ _ _ Hst), ?Hshape;
          unfold len, BUFSIZE in *; lia).
    injection Hsl as Hsl. exact Hsl. }
  replace (Z.to_nat len) with (length bs) by lia. apply um_load_store.
Qed.

Lemma write_then_read_at_offset_witness :
  exists k1,
    s_write fresh_kernel handle0 user_src 8192 9 506 = Returns (6, 512) k1 /\
    exists um2' k2,
      s_read k1 handle0 user_page 4096 9 506 = Returns (6, um2', 512) k2 /\
      um_load um2' 4096 6 = Some (take 6 test_data).
Proof.
  destruct (write_then_read_at_offset fresh_kernel handle0 0%nat fresh_dev
              user_src 8192 test_data 506) as (k1 & Hw & Hr).
  - reflexivity.
  - reflexivity.
  - split; reflexivity.
  - split; [discriminate|reflexivity].
  - simpl. lia.
  - split; [discriminate|reflexivity].
  - vm_compute. reflexivity.
  - exists k1. split; [exact Hw|].
    apply (Hr handle0 user_page 4096); [reflexivity|vm_compute; reflexivity].
Defined.



(** * Stores that follow one another *)

Section Stores.

Implicit Types (obj bs : list byte) (idx : Z).

(** Every byte of an array after a store. *)
Lemma kstore_lookup obj idx bs obj' (j : nat) :
  kstore obj idx bs = Some obj' ->
  obj' !! j =
    if decide (idx <= Z.of_nat j < idx + Z.of_nat (length bs))
    then bs !! (j - Z.to_nat idx)%nat else obj !! j.
Proof.
  intros Hst. case_decide as Hj.
  - apply (kstore_lookup_inside _ _ _ _ _ Hst Hj).
  - apply (kstore_lookup_outside _ _ _ _ _ Hst). lia.
Qed.

Lemma kstore_Some obj idx bs :
  0 <= idx -> idx + Z.of_nat (length bs) <= Z.of_nat (length obj) ->
  exists obj', kstore obj idx bs = Some obj'.
Proof. intros H0 H1. rewrite kstore_inside by assumption. eauto. Qed.

Lemma kstore_bounds obj idx bs obj' :
  kstore obj idx bs = Some obj' ->
  0 <= idx /\ idx + Z.of_nat (length bs) <= Z.of_nat (length obj).
Proof.
  unfold kstore.
  destruct (Z.leb_spec 0 idx); [|discriminate].
  destruct (Z.leb_spec (idx + Z.of_nat (length bs)) (Z.of_nat (length obj)));
    [|discriminate].
  intros _. lia.
Qed.

(** Two arrays of the same length with the same bytes. *)
Lemma same_bytes obj1 obj2 :
  (forall j : nat, obj1 !! j = obj2 !! j) -> obj1 = obj2.
Proof. apply list_eq. Qed.

(** A store right behind another is one store of both chunks. *)
Lemma kstore_adjacent obj idx bs1 bs2 o1 o2 :
  kstore obj idx bs1 = Some o1 ->
  kstore o1 (idx + Z.of_nat (length bs1)) bs2 = Some o2 ->
  kstore obj idx (bs1 ++ bs2) = Some o2.
Proof.
  intros H1 H2.
  pose proof (kstore_bounds _ _ _ _ H1) as [Hi _].
  pose proof (kstore_bounds _ _ _ _ H2) as [_ Hfit].
  rewrite (kstore_length _ _ _ _ H1) in Hfit.
  destruct (kstore_Some obj idx (bs1 ++ bs2)) as [o Ho];
    [lia|rewrite length_app; lia|].
  rewrite Ho. f_equal. apply same_bytes. intros j.
  rewrite (kstore_lookup _ _ _ _ j Ho), (kstore_lookup _ _ _ _ j H2),
    (kstore_lookup _ _ _ _ j H1), length_app.
  repeat case_decide; try lia; try reflexivity;
    first [apply lookup_app_l; lia
          |rewrite lookup_app_r by lia; f_equal; lia].
Qed.

(** Stores into ranges that do not meet can be swapped. *)
Lemma kstore_swap obj i1 bs1 i2 bs2 o1 o12 :
  kstore obj i1 bs1 = Some o1 -> kstore o1 i2 bs2 = Some o12 ->
  i1 + Z.of_nat (length bs1) <= i2 \/ i2 + Z.of_nat (length bs2) <= i1 ->
  exists o2, kstore obj i2 bs2 = Some o2 /\ kstore o2 i1 bs1 = Some o12.
Proof.
  intros H1 H12 Hdisj.
  pose proof (kstore_bounds _ _ _ _ H1) as [Hi1 Hfit1].
  pose proof (kstore_bounds _ _ _ _ H12) as [Hi2 Hfit2].
  rewrite (kstore_length _ _ _ _ H1) in Hfit2.
  destruct (kstore_Some obj i2 bs2) as [o2 H2]; [lia|lia|].
  destruct (kstore_Some o2 i1 bs1) as [o21 H21];
    [lia|rewrite (kstore_length _ _ _ _ H2); lia|].
  exists o2. split; [exact H2|]. rewrite H21. f_equal. apply same_bytes.
  intros j.
  rewrite (kstore_lookup _ _ _ _ j H21), (kstore_lookup _ _ _ _ j H2),
    (kstore_lookup _ _ _ _ j H12), (kstore_lookup _ _ _ _ j H1).
  repeat case_decide; try lia; reflexivity.
Qed.


End Stores.

(** * Writes that follow one another *)

(** A write inside the buffer with a readable source, as a store. *)
Lemma s_write_stores k f i data um ubuf count offset bs :
  private_data f = Some i -> devs k !! i = Some data -> dev_ok data ->
  in_size_t count -> 0 <= offset <= BUFSIZE ->
  um_load um ubuf (Z.to_nat (Z.min count (BUFSIZE - offset))) = Some bs ->
  exists b' k',
    kstore (buffer data) offset bs = Some b' /\
    s_write k f um ubuf count offset =
      Returns (Z.min count (BUFSIZE - offset),
               offset + Z.min count (BUFSIZE - offset)) k' /\
    devs k' = <[i := dev_with b']> (devs k) /\
    devs k' !! i = Some (dev_with b') /\
    dev_ok (dev_with b').
Proof.
  intros Hf Hd Hok Hc Ho Hload.
  pose proof Hok as [Hshape _]. unfold dev_shape in Hshape.
  pose proof (um_load_length _ _ _ _ Hload) as Hl.
  destruct (s_write_ok k f i data Hf Hd Hok um ubuf count offset bs Hc Ho Hload)
    as (k' & Hw & Hdevs).
  assert (kstore (buffer data) offset bs =
          Some (take (Z.to_nat offset) (buffer data) ++ bs ++
                drop (Z.to_nat offset + length bs) (buffer data))) as Hst
    by (apply kstore_inside; [lia|]; rewrite Hshape, Hl;
        unfold in_size_t, BUFSIZE in *; lia).
  eexists _, k'. split; [exact Hst|]. split; [exact Hw|].
  split; [exact Hdevs|]. split.
  - rewrite Hdevs. apply list_lookup_insert_eq. eapply lookup_lt_Some. exact Hd.
  - split; [|reflexivity]. unfold dev_shape. simpl.
    rewrite (kstore_length _ _ _ _ Hst). exact Hshape.
Qed.

(** Writing in two calls is writing in one: a write of [c1] bytes
    followed by a write of the rest of [total] bytes, at the offset and
    the user address the first one stopped at, returns in all what a
    single write of [total] bytes returns and leaves the devices exactly
    as that write does. *)
Theorem two_writes_are_one k f i data um src c1 total offset :
  private_data f = Some i -> devs k !! i = Some data -> dev_ok data ->
  0 <= offset <= BUFSIZE -> in_size_t total -> 0 <= c1 <= total ->
  access_ok um src (Z.min total (BUFSIZE - offset)) = true ->
  exists r1 k1 r2 k2 k',
    s_write k f um src c1 offset = Returns (r1, offset + r1) k1 /\
    s_write k1 f um (src + r1) (total - r1) (offset + r1)
      = Returns (r2, offset + r1 + r2) k2 /\
    s_write k f um src total offset = Returns (r1 + r2, offset + r1 + r2) k' /\
    devs k2 = devs k'.
Proof.
  intros Hf Hd Hok Ho Ht Hc Hacc.
  set (len := Z.min total (BUFSIZE - offset)) in *.
  set (r1 := Z.min c1 (BUFSIZE - offset)).
  set (r2 := Z.min (total - r1) (BUFSIZE - (offset + r1))).
  assert (0 <= r1 /\ 0 <= r2 /\ r1 + r2 = len) as (Hr1 & Hr2 & Hsum)
    by (unfold r1, r2, len, in_size_t in *; lia).
  assert (in_size_t c1) as Hc1 by (unfold in_size_t in *; lia).
  assert (in_size_t (total - r1)) as Hc2 by (unfold in_size_t in *; lia).
  apply access_ok_load in Hacc as [bs Hload].
  pose proof (um_load_length _ _ _ _ Hload) as Hl.
  assert (um_load um src (Z.to_nat r1) = Some (take (Z.to_nat r1) bs)) as Hl1
    by (apply (um_load_take _ _ _ _ _ Hload); lia).
  assert (um_load um (src + r1) (Z.to_nat r2) = Some (drop (Z.to_nat r1) bs))
    as Hl2.
  { pose proof (um_load_drop _ _ _ _ (Z.to_nat r1) Hload ltac:(lia)) as H.
    rewrite Z2Nat.id in H by lia.
    replace (Z.to_nat len - Z.to_nat r1)%nat with (Z.to_nat r2) in H by lia.
    exact H. }
  destruct (s_write_stores k f i data um src c1 offset _ Hf Hd Hok Hc1 Ho Hl1)
    as (b1 & k1 & Hst1 & Hw1 & Hdevs1 & Hd1 & Hok1).
  fold r1 in Hw1.
  destruct (s_write_stores k1 f i (dev_with b1) um (src + r1) (total - r1)
              (offset + r1) _ Hf Hd1 Hok1 Hc2 ltac:(unfold r1; lia) Hl2)
    as (b2 & k2 & Hst2 & Hw2 & Hdevs2 & _).
  fold r2 in Hw2.
  destruct (s_write_stores k f i data um src total offset _ Hf Hd Hok Ht Ho Hload)
    as (b & k' & Hst & Hw & Hdevs & _).
  fold len in Hw.
  exists r1, k1, r2, k2, k'. split; [exact Hw1|]. split; [exact Hw2|].
  split; [rewrite Hw, <- Hsum, Z.add_assoc; reflexivity|].
  rewrite Hdevs2, Hdevs1, Hdevs, list_insert_insert_eq. do 2 f_equal.
  simpl in Hst2.
  assert (Z.of_nat (length (take (Z.to_nat r1) bs)) = r1) as Hlt
    by (rewrite length_take; lia).
  rewrite <- Hlt in Hst2 at 1.
  pose proof (kstore_adjacent _ _ _ _ _ _ Hst1 Hst2) as Hadj.
  rewrite take_drop, Hst in Hadj. congruence.
Qed.

Lemma two_writes_are_one_witness :
  exists r1 k1 r2 k2 k',
    s_write fresh_kernel handle0 user_src 8192 4 0 = Returns (r1, 0 + r1) k1 /\
    s_write k1 handle0 user_src (8192 + r1) (9 - r1) (0 + r1)
      = Returns (r2, 0 + r1 + r2) k2 /\
    s_write fresh_kernel handle0 user_src 8192 9 0
      = Returns (r1 + r2, 0 + r1 + r2) k' /\
    devs k2 = devs k'.
Proof.
  apply (two_writes_are_one fresh_kernel handle0 0%nat fresh_dev
           user_src 8192 4 9 0).
  - reflexivity.
  - reflexivity.
  - split; reflexivity.
  - split; discriminate.
  - split; [discriminate|reflexivity].
  - split; discriminate.
  - vm_compute. reflexivity.
Defined.

(** Writes to ranges of the buffer that do not meet commute: whichever
    order two such writes are made in, through handles on the same device,
    each returns the same count and the devices end up the same. *)
Theorem disjoint_writes_commute k f1 f2 i data um1 src1 c1 o1 um2 src2 c2 o2 :
  private_data f1 = Some i -> private_data f2 = Some i ->
  devs k !! i = Some data -> dev_ok data ->
  in_size_t c1 -> in_size_t c2 ->
  0 <= o1 <= BUFSIZE -> 0 <= o2 <= BUFSIZE ->
  access_ok um1 src1 (Z.min c1 (BUFSIZE - o1)) = true ->
  access_ok um2 src2 (Z.min c2 (BUFSIZE - o2)) = true ->
  o1 + Z.min c1 (BUFSIZE - o1) <= o2 \/ o2 + Z.min c2 (BUFSIZE - o2) <= o1 ->
  exists r1 r2 ka kab kb kba,
    s_write k f1 um1 src1 c1 o1 = Returns (r1, o1 + r1) ka /\
    s_write ka f2 um2 src2 c2 o2 = Returns (r2, o2 + r2) kab /\
    s_write k f2 um2 src2 c2 o2 = Returns (r2, o2 + r2) kb /\
    s_write kb f1 um1 src1 c1 o1 = Returns (r1, o1 + r1) kba /\
    devs kab = devs kba.
Proof.
  intros Hf1 Hf2 Hd Hok Hc1 Hc2 Ho1 Ho2 Hacc1 Hacc2 Hdisj.
  apply access_ok_load in Hacc1 as [bs1 Hl1].
  apply access_ok_load in Hacc2 as [bs2 Hl2].
  pose proof (um_load_length _ _ _ _ Hl1) as Hlen1.
  pose proof (um_load_length _ _ _ _ Hl2) as Hlen2.
  destruct (s_write_stores k f1 i data um1 src1 c1 o1 _ Hf1 Hd Hok Hc1 Ho1 Hl1)
    as (ba & ka & Hsta & Hwa & Hdevsa & Hda & Hoka).
  destruct (s_write_stores ka f2 i (dev_with ba) um2 src2 c2 o2 _
              Hf2 Hda Hoka Hc2 Ho2 Hl2)
    as (bab & kab & Hstab & Hwab & Hdevsab & _).
  destruct (s_write_stores k f2 i data um2 src2 c2 o2 _ Hf2 Hd Hok Hc2 Ho2 Hl2)
    as (bb & kb & Hstb & Hwb & Hdevsb & Hdb & Hokb).
  destruct (s_write_stores kb f1 i (dev_with bb) um1 src1 c1 o1 _
              Hf1 Hdb Hokb Hc1 Ho1 Hl1)
    as (bba & kba & Hstba & Hwba & Hdevsba & _).
  eexists _, _, ka, kab, kb, kba.
  split; [exact Hwa|]. split; [exact Hwab|]. split; [exact Hwb|].
  split; [exact Hwba|].
  rewrite Hdevsab, Hdevsa, Hdevsba, Hdevsb, !list_insert_insert_eq.
  do 2 f_equal. simpl in Hstab, Hstba.
  destruct (kstore_swap _ _ _ _ _ _ _ Hsta Hstab) as (bb' & Hb' & Hba').
  { unfold in_size_t in *. lia. }
  congruence.
Qed.

Lemma disjoint_writes_commute_witness :
  exists r1 r2 ka kab kb kba,
    s_write fresh_kernel handle0 user_src 8192 9 0 = Returns (r1, 0 + r1) ka /\
    s_write ka handle0 user_page 4096 20 500 = Returns (r2, 500 + r2) kab /\
    s_write fresh_kernel handle0 user_page 4096 20 500 = Returns (r2, 500 + r2) kb /\
    s_write kb handle0 user_src 8192 9 0 = Returns (r1, 0 + r1) kba /\
    devs kab = devs kba.
Proof.
  apply (disjoint_writes_commute fresh_kernel handle0 handle0 0%nat fresh_dev).
  - reflexivity.
  - reflexivity.
  - reflexivity.
  - split; reflexivity.
  - split; [discriminate|reflexivity].
  - split; [discriminate|reflexivity].
  - split; discriminate.
  - split; discriminate.
  - vm_compute. reflexivity.
  - vm_compute. reflexivity.
  - left. vm_compute. discriminate.
Defined.



(** * Load, in full *)

Lemma init_minor_major i k u k' :
  init_minor i k = Returns u k' -> major k' = major k.
Proof.
  unfold init_minor. simpl.
  destruct (devs k !! i) as [d|]; [|discriminate].
  destruct (kstore (buffer d) 0 MESSAGE_literal) as [b|]; [|discriminate].
  intros [= _ <-]. reflexivity.
Qed.

Lemma init_minor_exact i k u k' :
  init_minor i k = Returns u k' ->
  exists d,
    devs k !! i = Some d /\
    devs k' = <[i := dev_with (MESSAGE_literal ++ drop 13 (buffer d))]> (devs k).
Proof.
  unfold init_minor. simpl.
  destruct (devs k !! i) as [d|] eqn:Hd; [|discriminate].
  unfold kstore. destruct (_ && _); [|discriminate].
  intros [= _ <-]. exists d. split; reflexivity.
Qed.

(** The loop rewrites the devices from [i] to [i + n) and no other. *)
Lemma init_loop_exact n : forall i k u k',
  init_loop i n k = Returns u k' ->
  major k' = major k /\
  forall j,
    devs k' !! j =
      if decide (i <= j < i + n)%nat
      then (fun d => dev_with (MESSAGE_literal ++ drop 13 (buffer d)))
             <$> devs k !! j
      else devs k !! j.
Proof.
  induction n as [|n IH]; intros i k u k'; simpl.
  - intros [= _ <-]. split; [reflexivity|]. intros j.
    case_decide; [lia|reflexivity].
  - destruct (init_minor i k) as [u1 k1| |] eqn:Hm; try discriminate.
    pose proof (init_minor_major _ _ _ _ Hm) as Hmaj.
    apply init_minor_exact in Hm as (d & Hd & Hk1).
    intros Hloop. destruct (IH _ _ _ _ Hloop) as [Hmaj' Hj].
    split; [congruence|]. intros j. rewrite Hj, Hk1.
    destruct (decide (j = i)) as [->|Hne].
    + rewrite list_lookup_insert_eq by (eapply lookup_lt_Some; exact Hd).
      rewrite Hd. repeat case_decide; try lia. reflexivity.
    + rewrite list_lookup_insert_ne by lia.
      repeat case_decide; try lia; reflexivity.
Qed.

Lemma init_func_major k0 rc dev k :
  init_func k0 (rc, dev) = Returns 0 k -> 0 <= rc /\ major k = MAJOR dev.
Proof.
  unfold init_func. destruct (Z.ltb_spec rc 0) as [Hrc|Hrc].
  { intros Hbad. discriminate Hbad. }
  destruct (init_loop 0 NUM_MINORS (set_major (MAJOR dev) k0))
    as [u k2| |] eqn:Hloop; try discriminate.
  intros [= <-]. split; [exact Hrc|].
  apply (init_loop_exact _ _ _ _ _ Hloop).
Qed.

(** A load decides on the allocation alone.  When
    [alloc_chrdev_region] fails the load returns 1 and leaves [devs] and
    [major] as they were.  When it succeeds the load returns 0, [major] is
    the major of the allocated number, and every buffer holds the 13 bytes
    of the literal followed by the bytes it held from index 13 on, with
    [size = BUFSIZE]. *)
Theorem load_outcome k0 rc dev :
  unloaded k0 ->
  (rc < 0 ->
   exists k, init_func k0 (rc, dev) = Returns 1 k /\
             devs k = devs k0 /\ major k = major k0) /\
  (0 <= rc ->
   exists k, init_func k0 (rc, dev) = Returns 0 k /\
             major k = MAJOR dev /\
             devs k = (fun d => dev_with (MESSAGE_literal ++ drop 13 (buffer d)))
                        <$> devs k0).
Proof.
  intros Hun. split.
  - intros Hrc. unfold init_func. destruct (Z.ltb_spec rc 0); [|lia].
    eexists. split; [reflexivity|]. split; reflexivity.
  - intros Hrc. destruct (init_func_returns k0 rc dev Hun Hrc) as [k Hinit].
    exists k. split; [exact Hinit|].
    unfold init_func in Hinit. destruct (Z.ltb_spec rc 0); [lia|].
    destruct (init_loop 0 NUM_MINORS (set_major (MAJOR dev) k0))
      as [u k2| |] eqn:Hloop; try discriminate.
    injection Hinit as <-. simpl.
    destruct (init_loop_exact _ _ _ _ _ Hloop) as [Hmaj Hj].
    split; [exact Hmaj|]. apply list_eq. intros j.
    rewrite Hj, list_lookup_fmap. simpl.
    case_decide as Hin; [reflexivity|].
    destruct Hun as [Hlen _].
    rewrite (lookup_ge_None_2 (devs k0) j) by lia. reflexivity.
Qed.

Lemma load_outcome_witness :
  exists k, init_func static_image (0, 0) = Returns 0 k /\
            major k = MAJOR 0 /\
            devs k = (fun d => dev_with (MESSAGE_literal ++ drop 13 (buffer d)))
                       <$> devs static_image.
Proof.
  apply (load_outcome static_image 0 0).
  - split; [reflexivity|]. repeat constructor.
  - lia.
Defined.

(** * Handles over the life of the module *)

Lemma step_length k k' :
  step_inside k k' -> length (devs k') = length (devs k).
Proof.
  intros H. apply step_devs in H as [->|(p & data & b' & _ & _ & ->)];
    [reflexivity|apply length_insert].
Qed.

Lemma Loaded_length k : Loaded_inside k -> length (devs k) = NUM_MINORS.
Proof.
  induction 1 as [k0 alloc k Hun Hinit|k k' _ IH Hstep].
  - apply (init_func_greets k0 alloc k Hun Hinit).
  - rewrite (step_length _ _ Hstep). exact IH.
Qed.

Lemma Loaded_steps k k' :
  Loaded_inside k -> rtc step_inside k k' -> Loaded_inside k'.
Proof.
  intros HL Hsteps. induction Hsteps as [|k k1 k2 Hstep _ IH]; [exact HL|].
  apply IH. eapply Loaded_inside_step; eassumption.
Qed.

(** The run used below: open, then a write of "test data" at offset 0. *)
Lemma open_then_write_inside : rtc step_inside fresh_kernel written_kernel.
Proof.
  apply (rtc_l _ _ opened_kernel).
  - apply (inside_open fresh_kernel {| i_cdev := 0 |}
             {| private_data := None |} (0, handle0)).
    reflexivity.
  - apply rtc_once.
    apply (inside_write opened_kernel handle0 user_src 8192 9 0 (9, 9)).
    + split; [discriminate|reflexivity].
    + split; discriminate.
    + vm_compute. reflexivity.
Defined.

(** While every read and write is made at a position inside the buffer or
    at its end, a handle opened on a node of the driver stays valid and
    usable: in every later state it designates a device with
    [size = BUFSIZE] and a buffer of [BUFSIZE] bytes, and every read and
    write through it at such a position returns. *)
Theorem opened_handle_stays_valid k ino f0 f k1 k2 :
  Loaded_inside k -> (i_cdev ino < NUM_MINORS)%nat ->
  s_open k ino f0 = Returns (0, f) k1 -> rtc step_inside k1 k2 ->
  (exists data, deref k2 (private_data f) = Some data /\ dev_ok data) /\
  (forall um ubuf count offset,
     in_size_t count -> 0 <= offset <= BUFSIZE ->
     (exists v k', s_read k2 f um ubuf count offset = Returns v k') /\
     (exists v k', s_write k2 f um ubuf count offset = Returns v k')).
Proof.
  intros HL Hino Hopen Hsteps.
  assert (Loaded_inside k2) as HL2.
  { apply (Loaded_steps k1); [|exact Hsteps].
    apply (Loaded_inside_step k); [exact HL|]. eapply inside_open. exact Hopen. }
  apply s_open_handle in Hopen as [[= ->] _].
  destruct (lookup_lt_is_Some_2 (devs k2) (i_cdev ino)) as [data Hd].
  { rewrite (Loaded_length k2 HL2). exact Hino. }
  pose proof (proj1 (Forall_lookup _ _) (Loaded_dev_ok k2 HL2) _ _ Hd) as Hok.
  split.
  - exists data. split; [exact Hd|exact Hok].
  - intros um ubuf count offset Hc Ho. split.
    + rewrite (s_read_inside k2 {| private_data := Some (i_cdev ino) |}
                 (i_cdev ino) data eq_refl Hd Hok) by assumption.
      destruct (_ =? 0); [eauto|]. destruct (access_ok _ _ _); eauto.
    + rewrite (s_write_inside k2 {| private_data := Some (i_cdev ino) |}
                 (i_cdev ino) data eq_refl Hd Hok) by assumption.
      destruct (_ =? 0); [eauto|]. destruct (um_load _ _ _); eauto.
Qed.

Lemma opened_handle_stays_valid_witness :
  exists data,
    deref written_kernel (private_data handle0) = Some data /\ dev_ok data.
Proof.
  destruct (opened_handle_stays_valid fresh_kernel {| i_cdev := 0 |}
              {| private_data := None |} handle0 opened_kernel written_kernel)
    as [H _].
  - apply (Loaded_inside_init static_image
             (0, Z.shiftl 240 MINORBITS + FIRST_MINOR)).
    + split; [reflexivity|]. repeat constructor.
    + vm_compute. reflexivity.
  - unfold NUM_MINORS. simpl. lia.
  - reflexivity.
  - apply rtc_once.
    apply (inside_write opened_kernel handle0 user_src 8192 9 0 (9, 9)).
    + split; [discriminate|reflexivity].
    + split; discriminate.
    + vm_compute. reflexivity.
  - exact H.
Defined.

(** * Device numbers *)

Section DeviceNumbers.

Lemma minor_bits_clear ma mi :
  0 <= mi < 2 ^ MINORBITS -> Z.land (ma * 2 ^ MINORBITS) mi = 0.
Proof.
  intros Hmi. apply Z.bits_inj'. intros n Hn.
  rewrite Z.land_spec, Z.bits_0.
  destruct (Z.lt_ge_cases n MINORBITS) as [Hlt|Hge].
  - rewrite Z.mul_pow2_bits_low by exact Hlt. reflexivity.
  - rewrite <- (Z.mod_small mi (2 ^ MINORBITS)) by exact Hmi.
    rewrite Z.mod_pow2_bits_high by (unfold MINORBITS in *; lia).
    apply andb_false_r.
Qed.

(** [MKDEV] puts the minor in the low [MINORBITS] bits. *)
Lemma MKDEV_add ma mi :
  0 <= mi < 2 ^ MINORBITS -> MKDEV ma mi = ma * 2 ^ MINORBITS + mi.
Proof.
  intros Hmi. unfold MKDEV.
  rewrite Z.shiftl_mul_pow2 by (unfold MINORBITS; lia).
  rewrite <- Z.lxor_lor by (apply minor_bits_clear; exact Hmi).
  symmetry. apply Z.add_nocarry_lxor. apply minor_bits_clear. exact Hmi.
Qed.

Lemma MAJOR_MKDEV ma mi :
  0 <= mi < 2 ^ MINORBITS -> MAJOR (MKDEV ma mi) = ma.
Proof.
  intros Hmi. rewrite MKDEV_add by exact Hmi. unfold MAJOR.
  rewrite Z.shiftr_div_pow2 by (unfold MINORBITS; lia).
  rewrite Z.div_add_l by (unfold MINORBITS; lia).
  rewrite Z.div_small by exact Hmi. lia.
Qed.

End DeviceNumbers.

(** * Load and unload as seen by the character-device layer *)

Lemma init_minor_traced_fst i k : fst (init_minor_traced i k) = init_minor i k.
Proof. unfold init_minor_traced. destruct (init_minor i k); reflexivity. Qed.

Lemma init_loop_traced_fst n : forall i k,
  fst (init_loop_traced i n k) = init_loop i n k.
Proof.
  induction n as [|n IH]; intros i k; simpl; [reflexivity|].
  unfold init_minor_traced. destruct (init_minor i k) as [u k'| |]; try reflexivity.
  rewrite <- IH. destruct (init_loop_traced (S i) n k'). reflexivity.
Qed.

(** The traced load is the load: same result, same state. *)
Lemma init_func_traced_fst k alloc :
  fst (init_func_traced k alloc) = init_func k alloc.
Proof.
  unfold init_func_traced, init_func. destruct alloc as [rc dev].
  destruct (rc <? 0); [reflexivity|].
  rewrite <- init_loop_traced_fst.
  destruct (init_loop_traced 0 NUM_MINORS (set_major (MAJOR dev) k))
    as [[u k2| |] cs]; reflexivity.
Qed.

(** The calls of the loop, however it ends: for each minor [j] it got
    through, [cdev_init] and then [cdev_add] at [MKDEV(major, j)]. *)
Lemma init_loop_traced_calls n : forall i k,
  exists m, (m <= n)%nat /\
    snd (init_loop_traced i n k) =
      flat_map (fun j => [Cdev_init j; Cdev_add j (MKDEV (major k) (Z.of_nat j)) 1])
               (seq i m) /\
    (forall u k', init_loop i n k = Returns u k' -> m = n).
Proof.
  induction n as [|n IH]; intros i k; simpl.
  - exists 0%nat. repeat split; reflexivity || lia.
  - unfold init_minor_traced.
    destruct (init_minor i k) as [u1 k1| |] eqn:Hm.
    + destruct (IH (S i) k1) as (m & Hle & Hcalls & Hfull).
      rewrite (init_minor_major _ _ _ _ Hm) in *.
      destruct (init_loop_traced (S i) n k1) as [o cs] eqn:E. simpl in Hcalls.
      exists (S m). split; [lia|]. split.
      * simpl. rewrite Hcalls. reflexivity.
      * intros u k' Hret. f_equal. eapply Hfull. exact Hret.
    + exists 0%nat. split; [lia|]. split; [reflexivity|]. discriminate.
    + exists 0%nat. split; [lia|]. split; [reflexivity|]. discriminate.
Qed.

Lemma step_major k k' : step_inside k k' -> major k' = major k.
Proof.
  intros [k0 ino f v k0' H|k0 ino f v k0' H|k0 f um ubuf c o v k0' _ _ H
         |k0 f um ubuf c o v k0' _ _ H].
  - unfold s_open in H. injection H as _ <-. reflexivity.
  - unfold s_release in H. injection H as _ <-. reflexivity.
  - unfold s_read in H.
    destruct (deref k0 (private_data f)) as [data|]; [|discriminate].
    destruct (_ <=? 0); [injection H as _ <-; reflexivity|].
    destruct (copy_to_user _ _ _ _ _) as [[nc um']|]; [|discriminate].
    destruct (negb _); injection H as _ <-; reflexivity.
  - unfold s_write in H.
    destruct (private_data f) as [p|]; [|discriminate].
    destruct (deref k0 (Some p)) as [data|]; [|discriminate].
    destruct (_ <=? 0); [injection H as _ <-; reflexivity|].
    destruct (copy_from_user _ _ _ _ _) as [[nc b']|]; [|discriminate].
    destruct (negb _); injection H as _ <-; reflexivity.
Qed.

Lemma steps_major k k' : rtc step_inside k k' -> major k' = major k.
Proof.
  induction 1 as [|k k1 k2 Hstep _ IH]; [reflexivity|].
  rewrite IH. apply step_major. exact Hstep.
Qed.

(** Unload undoes load.  After a load that returned 0, with
    [alloc_chrdev_region] having answered the number [MKDEV(ma,
    FIRST_MINOR)], and calls of open, release, read and write since, the
    reads and writes all at positions inside the buffer or at its end,
    [exit_func] deletes exactly the cdevs [init_func] added, then
    unregisters the [NUM_MINORS] numbers from the allocated one on, as its
    last call, and leaves [devs] alone. *)
Theorem unload_undoes_load k0 rc ma k k' :
  unloaded k0 ->
  init_func k0 (rc, MKDEV ma FIRST_MINOR) = Returns 0 k ->
  rtc step_inside k k' ->
  (forall i,
     Cdev_del i ∈ snd (exit_func k') <->
     exists devno c,
       Cdev_add i devno c ∈ snd (init_func_traced k0 (rc, MKDEV ma FIRST_MINOR))) /\
  (exists dels,
     snd (exit_func k') =
       dels ++ [Unregister_chrdev_region (MKDEV ma FIRST_MINOR) NUM_MINORS] /\
     forall c, c ∈ dels -> exists i, c = Cdev_del i) /\
  devs (fst (exit_func k')) = devs k'.
Proof.
  intros Hun Hinit Hsteps.
  assert (major k' = ma) as Hmaj.
  { rewrite (steps_major _ _ Hsteps).
    rewrite (proj2 (init_func_major _ _ _ _ Hinit)).
    apply MAJOR_MKDEV. unfold FIRST_MINOR, MINORBITS. lia. }
  assert (snd (init_func_traced k0 (rc, MKDEV ma FIRST_MINOR)) =
          Alloc_chrdev_region FIRST_MINOR NUM_MINORS NAME ::
          flat_map (fun j => [Cdev_init j;
                              Cdev_add j (MKDEV (MAJOR (MKDEV ma FIRST_MINOR))
                                            (Z.of_nat j)) 1])
                   (seq 0 NUM_MINORS)) as Hcalls.
  { pose proof (init_func_traced_fst k0 (rc, MKDEV ma FIRST_MINOR)) as Hfst.
    rewrite Hinit in Hfst. unfold init_func_traced in *.
    destruct (rc <? 0); [simpl in Hfst; injection Hfst as Hbad _; discriminate|].
    destruct (init_loop_traced_calls NUM_MINORS 0
                (set_major (MAJOR (MKDEV ma FIRST_MINOR)) k0))
      as (m & _ & Hc & Hfull).
    pose proof (init_loop_traced_fst NUM_MINORS 0
                  (set_major (MAJOR (MKDEV ma FIRST_MINOR)) k0)) as Hl.
    destruct (init_loop_traced 0 NUM_MINORS
                (set_major (MAJOR (MKDEV ma FIRST_MINOR)) k0))
      as [[u k2| |] cs]; simpl in Hfst; try discriminate.
    simpl in *. rewrite Hc. rewrite (Hfull u k2) by (symmetry; exact Hl).
    reflexivity. }
  split; [|split].
  - intros i. rewrite Hcalls. unfold exit_func. cbn [snd].
    rewrite elem_of_app, list_elem_of_fmap, list_elem_of_singleton.
    split.
    + intros [(j & [= <-] & Hj)|[=]].
      eexists _, _. apply elem_of_cons. right.
      apply list_elem_of_In, in_flat_map.
      exists i. split; [apply list_elem_of_In; exact Hj|]. right. left.
      reflexivity.
    + intros (devno & c & Hin). left. exists i. split; [reflexivity|].
      apply elem_of_cons in Hin as [[=]|Hin].
      apply list_elem_of_In, in_flat_map in Hin as (j & Hj & Hin).
      apply list_elem_of_In. simpl in Hin.
      destruct Hin as [[=]|[[= <- _ _]|[]]]. exact Hj.
  - eexists. unfold exit_func. cbn [snd]. rewrite Hmaj.
    split; [reflexivity|]. intros c Hc.
    apply list_elem_of_fmap in Hc as (j & -> & _). eauto.
  - reflexivity.
Qed.

Lemma unload_undoes_load_witness :
  exists dels,
    snd (exit_func written_kernel) =
      dels ++ [Unregister_chrdev_region (MKDEV 240 FIRST_MINOR) NUM_MINORS] /\
    forall c, c ∈ dels -> exists i, c = Cdev_del i.
Proof.
  destruct (unload_undoes_load static_image 0 240 fresh_kernel written_kernel)
    as (_ & H & _).
  - split; [reflexivity|]. repeat constructor.
  - vm_compute. reflexivity.
  - exact open_then_write_inside.
  - exact H.
Defined.

(** Where the device is published.  Every [cdev_add] of a load is for a
    minor [i < NUM_MINORS] at the number [MKDEV(major, i)], the major being
    the allocated one; with the allocation made from [FIRST_MINOR] = 1 on,
    that number is not one of the [NUM_MINORS] numbers that were
    allocated. *)
Theorem published_number_is_not_allocated k0 rc ma i devno c :
  Cdev_add i devno c ∈ snd (init_func_traced k0 (rc, MKDEV ma FIRST_MINOR)) ->
  (i < NUM_MINORS)%nat /\
  devno = MKDEV ma (Z.of_nat i) /\
  ~ in_region (MKDEV ma FIRST_MINOR) NUM_MINORS devno.
Proof.
  intros Hin.
  assert (MAJOR (MKDEV ma FIRST_MINOR) = ma) as Hmaj
    by (apply MAJOR_MKDEV; unfold FIRST_MINOR, MINORBITS; lia).
  assert ((i < NUM_MINORS)%nat /\ devno = MKDEV ma (Z.of_nat i)) as [Hi ->].
  { unfold init_func_traced in Hin. destruct (rc <? 0).
    { simpl in Hin. apply list_elem_of_singleton in Hin. discriminate Hin. }
    destruct (init_loop_traced_calls NUM_MINORS 0
                (set_major (MAJOR (MKDEV ma FIRST_MINOR)) k0))
      as (m & Hle & Hc & _).
    assert (Cdev_add i devno c ∈
            snd (init_loop_traced 0 NUM_MINORS
                   (set_major (MAJOR (MKDEV ma FIRST_MINOR)) k0))) as Hin'.
    { destruct (init_loop_traced 0 NUM_MINORS
                  (set_major (MAJOR (MKDEV ma FIRST_MINOR)) k0))
        as [[u k2| |] cs]; simpl in Hin |- *;
        apply elem_of_cons in Hin as [[=]|Hin]; exact Hin. }
    rewrite Hc in Hin'. simpl major in Hin'. rewrite Hmaj in Hin'.
    apply list_elem_of_In, in_flat_map in Hin' as (j & Hj & Hin').
    apply in_seq in Hj. simpl in Hin'.
    destruct Hin' as [[=]|[[= <- <- _]|[]]]. split; [lia|reflexivity]. }
  split; [exact Hi|]. split; [reflexivity|].
  unfold in_region. rewrite !MKDEV_add
    by (unfold FIRST_MINOR, NUM_MINORS, MINORBITS in *; lia).
  unfold FIRST_MINOR, NUM_MINORS in *. lia.
Qed.

Lemma published_number_is_not_allocated_witness :
  ~ in_region (MKDEV 240 FIRST_MINOR) NUM_MINORS (MKDEV 240 0).
Proof.
  destruct (published_number_is_not_allocated static_image 0 240 0%nat
              (MKDEV 240 0) 1) as (_ & _ & H).
  - apply list_elem_of_In. vm_compute. right. right. left. reflexivity.
  - exact H.
Defined.

(** * The write inside the whole object *)

Lemma kstore_app_l obj tl idx bs obj' :
  kstore obj idx bs = Some obj' -> kstore (obj ++ tl) idx bs = Some (obj' ++ tl).
Proof.
  intros Hst. pose proof (kstore_bounds _ _ _ _ Hst) as [H0 Hfit].
  rewrite kstore_inside in Hst by assumption. injection Hst as <-.
  rewrite kstore_inside by (rewrite ?length_app; lia). f_equal.
  rewrite take_app_le by lia. rewrite drop_app_le by lia.
  rewrite <- !app_assoc. reflexivity.
Qed.

(** The bytes of a device as [init_func] leaves it give the device back. *)
Lemma object_of_object_bytes b :
  length b = Z.to_nat BUFSIZE ->
  object_of_bytes (b ++ le_encode sizeof_size_t BUFSIZE)
  = {| buffer := b; size := BUFSIZE |}.
Proof.
  intros Hl. unfold object_of_bytes. f_equal.
  - apply take_app_length'. symmetry. exact Hl.
  - rewrite drop_app_length' by (symmetry; exact Hl). reflexivity.
Qed.

(** Where [s_write] returns, the write inside the whole object is the same
    call: it returns the same result and leaves the same state. *)
Lemma s_write_in_object_agrees k f i data um ubuf count offset v k' :
  private_data f = Some i -> devs k !! i = Some data -> dev_ok data ->
  s_write k f um ubuf count offset = Returns v k' ->
  s_write_in_object k f um ubuf count offset = Returns v k'.
Proof.
  intros Hf Hd [Hshape Hsize]. unfold dev_shape in Hshape.
  unfold s_write, s_write_in_object, deref. rewrite Hf, Hd.
  destruct (_ <=? 0); [trivial|].
  unfold copy_from_user, object_bytes. rewrite Hsize.
  destruct (um_load um ubuf _) as [bs|].
  - destruct (kstore (buffer data) offset bs) as [b'|] eqn:Hst; [|discriminate].
    rewrite (kstore_app_l _ _ _ _ _ Hst).
    rewrite object_of_object_bytes
      by (rewrite (kstore_length _ _ _ _ Hst); exact Hshape).
    trivial.
  - rewrite object_of_object_bytes by exact Hshape. trivial.
Qed.
